(** * rancher-auto-certs: reconciliation and renewal orchestration

    A shallow embedding of [app/main.py].  Python values are modelled as
    follows:
    - [str] as [string], read as a sequence of code points below 256;
    - [int] and timestamps as [Z] (a [datetime] is a count of microseconds);
    - the dictionary [rancher_certs_by_name] and the file system as [gmap];
    - the tuples of [to_do] as Rocq tuples, [None] as [None];
    - exceptions, the file system, the log and every call to a collaborator
      (openssl, Rancher, acme_tiny, datadog, the clock) through the monad
      [M], which threads the state and collects the events emitted.

    The answers of the collaborators are parameters ([collab]). The
    configuration document and the answer of Rancher are taken well typed,
    as section 6 of the specification describes them. [setup_logging] and
    [main] only configure the logger and choose between [single_run] and
    [daemon]; they are not modelled. *)

From Stdlib Require Import ZArith Ascii.
From stdpp Require Import gmap strings list sorting lexico pretty.

(** ** Python strings *)

(** [str.isspace] on the code points below 256. *)
Definition is_py_space (a : ascii) : bool :=
  let n := N_of_ascii a in
  ((9 <=? n)%N && (n <=? 13)%N) || ((28 <=? n)%N && (n <=? 32)%N)
  || (n =? 133)%N || (n =? 160)%N.

Fixpoint lstrip (s : string) : string :=
  match s with
  | EmptyString => EmptyString
  | String a s' => if is_py_space a then lstrip s' else s
  end.

Definition rstrip (s : string) : string := String.rev (lstrip (String.rev s)).

(** [s.strip()] *)
Definition strip (s : string) : string := rstrip (lstrip s).

(** [sep.join(l)] *)
Fixpoint join (sep : string) (l : list string) : string :=
  match l with
  | [] => ""
  | [x] => x
  | x :: rest => x +:+ sep +:+ join sep rest
  end.

(** [str(n)] and ["{}".format(n)] for an [int]. *)
Definition str_int (n : Z) : string := pretty n.

(** ** Exceptions *)

Inductive exn :=
| Exception (msg : string)
| IOError (msg : string)
| FileNotFoundError (path : string)
| KeyError (key : string)
| ValueError (msg : string)
| TypeError (msg : string)
(** an exception raised inside a collaborator, with its class name *)
| LibraryError (cls msg : string).

(** [type(e).__name__] *)
Definition exn_name (e : exn) : string :=
  match e with
  | Exception _ => "Exception"
  | IOError _ => "OSError"
  | FileNotFoundError _ => "FileNotFoundError"
  | KeyError _ => "KeyError"
  | ValueError _ => "ValueError"
  | TypeError _ => "TypeError"
  | LibraryError cls _ => cls
  end.

(** [str(e)] *)
Definition exn_str (e : exn) : string :=
  match e with
  | Exception m | IOError m | ValueError m | TypeError m => m
  | FileNotFoundError p => "[Errno 2] No such file or directory: '" +:+ p +:+ "'"
  | KeyError k => "'" +:+ k +:+ "'"
  | LibraryError _ m => m
  end.

(** ** Data *)

(** One entry of [config["certs"]]. *)
Record cert_config := CertConfig {
  cc_name : string;
  cc_domains : list string
}.

(** The document of [config/config.yml]; [ca], [ca_directory] and [chain]
    are the keys whose presence the code tests. *)
Record config := Config {
  ca : option string;
  ca_directory : option string;
  chain : option string;
  key_length : Z;
  account_key : string;
  acme_dir : string;
  certs : list cert_config
}.

(** One certificate of Rancher's [GET /certificates]. *)
Record rancher_cert := RancherCert {
  rc_name : string;
  subjectAlternativeNames : list string;
  expiresAt : string;
  links_self : string
}.

(** An element of [to_do]: [(remaining_days, name, domains, link)]. *)
Definition work_item : Type := Z * string * list string * option string.

Definition item_urgency (it : work_item) : Z := it.1.1.1.
Definition item_name (it : work_item) : string := it.1.1.2.
Definition item_domains (it : work_item) : list string := it.1.2.
Definition item_link (it : work_item) : option string := it.2.

Inductive http_method := GET | POST | PUT.

Record request := Request {
  req_method : http_method;
  req_url : string;
  req_data : option (list (string * string));
  req_headers : list (string * string);
  req_auth : string * string
}.

Record response := Response {
  status_code : Z;
  text : string;
  (** [r.json()["data"]] *)
  json_data : exn + list rancher_cert
}.

(** What one run of the [openssl] process did: its exit status and streams,
    and the content it left in the file named by [-out], if any. *)
Record proc_result := ProcResult {
  returncode : Z;
  stdout : string;
  stderr : string;
  out_file : option string
}.

(** The keyword arguments of [acme_tiny.get_crt]. *)
Inductive tiny_kwargs :=
| KwCA (url : string)
| KwDirectoryUrl (url : string).

Inductive level := DEBUG | INFO | WARNING.

Inductive event :=
| Log (lvl : level) (msg : string)
| HttpRequest (r : request)
| Subprocess (args : list string)
| FileRead (path : string)
| FileWrite (path content : string)
| FileRemove (path : string)
| AcmeGetCrt (account_key csr_file acme_dir : string) (kw : tiny_kwargs)
| DatadogInit (host : string) (port : Z)
| StatsdEvent (title body alert_type : string)
| ServiceCheck (name : string) (status : Z)
| PrintExc (e : exn)
| Sleep (seconds : Z).

(** ** State and collaborators *)

(** The file system (path to content) and the number of calls made so far
    to the outside world; a collaborator's answer may depend on both. *)
Record state := State {
  files : gmap string string;
  tick : nat
}.

Record collab := Collab {
  (** [uuid.uuid4().hex] *)
  uuid4_hex : nat → string;
  (** [datetime.datetime.now()], in microseconds *)
  clock : nat → Z;
  (** [datetime.datetime.strptime(s, "%a %b %d %H:%M:%S %Z %Y")] *)
  strptime : string → exn + Z;
  (** [t.strftime("%Y-%m-%d %H:%M")] *)
  strftime : Z → string;
  (** [str] of a [timedelta] *)
  str_timedelta : Z → string;
  (** [int(s)] *)
  int_of_str : string → exn + Z;
  (** [os.environ] and [sys.argv] *)
  environ : gmap string string;
  (** [yaml.safe_load] *)
  yaml_safe_load : string → exn + config;
  (** [requests.get], [requests.post], [requests.put] *)
  http : nat → request → exn + response;
  (** [subprocess.Popen(...).communicate()] *)
  popen : nat → list string → gmap string string → exn + proc_result;
  (** [acme_tiny.get_crt] *)
  get_crt : nat → string → string → gmap string string → string →
            tiny_kwargs → exn + string
}.

(** ** The monad *)

Definition M (A : Type) : Type := state → (exn + A) * state * list event.

Definition ret {A} (a : A) : M A := λ s, (inr a, s, []).

Definition raise {A} (e : exn) : M A := λ s, (inl e, s, []).

Definition bind {A B} (m : M A) (f : A → M B) : M B := λ s,
  match m s with
  | (inl e, s1, ev1) => (inl e, s1, ev1)
  | (inr a, s1, ev1) =>
      match f a s1 with
      | (r, s2, ev2) => (r, s2, ev1 ++ ev2)
      end
  end.

Declare Scope py_scope.
Delimit Scope py_scope with py.
Notation "x <- m ;; k" := (bind m (λ x, k))
  (at level 100, m at next level, right associativity) : py_scope.
Notation "m ;; k" := (bind m (λ _, k))
  (at level 100, right associativity) : py_scope.
Local Open Scope py_scope.

(** [try: m except Exception as e: h e] *)
Definition try_except {A} (m : M A) (h : exn → M A) : M A := λ s,
  match m s with
  | (inl e, s1, ev1) =>
      match h e s1 with
      | (r, s2, ev2) => (r, s2, ev1 ++ ev2)
      end
  | (inr a, s1, ev1) => (inr a, s1, ev1)
  end.

Definition lift {A} (r : exn + A) : M A := λ s, (r, s, []).

Definition emit (e : event) : M unit := λ s, (inr tt, s, [e]).

(** The number of this call to the outside world. *)
Definition next_tick : M nat := λ s,
  (inr (tick s), State (files s) (S (tick s)), []).

Definition get_files : M (gmap string string) := λ s, (inr (files s), s, []).

Definition set_files (fs : gmap string string) : M unit := λ s,
  (inr tt, State fs (tick s), []).

(** [for x in l: body x] *)
Fixpoint for_each {A} (l : list A) (body : A → M unit) : M unit :=
  match l with
  | [] => ret tt
  | x :: l' => body x ;; for_each l' body
  end.

Definition logger_debug (msg : string) : M unit := emit (Log DEBUG msg).
Definition logger_info (msg : string) : M unit := emit (Log INFO msg).
Definition logger_warning (msg : string) : M unit := emit (Log WARNING msg).

(** ** [contains_sublist] *)

Fixpoint contains_sublist (lst sublst : list string) : bool :=
  match sublst with
  | [] => true
  | e :: rest =>
      if negb (bool_decide (e ∈ lst)) then false
      else contains_sublist lst rest
  end.

(** ** [to_do.sort()] *)

(** [l1 < l2] on lists of [str]: the first differing position decides,
    a proper prefix is smaller. *)
Fixpoint list_lt (l1 l2 : list string) : bool :=
  match l1, l2 with
  | _, [] => false
  | [], _ :: _ => true
  | x :: l1', y :: l2' =>
      if bool_decide (x = y) then list_lt l1' l2' else String.ltb x y
  end.

(** [a < b] on the tuples of [to_do]: the first component where the tuples
    differ decides; [None] cannot be ordered against a [str]. *)
Definition item_lt (a b : work_item) : exn + bool :=
  let '(u1, n1, d1, l1) := a in
  let '(u2, n2, d2, l2) := b in
  if negb (bool_decide (u1 = u2)) then inr (u1 <? u2)%Z
  else if negb (bool_decide (n1 = n2)) then inr (String.ltb n1 n2)
  else if negb (bool_decide (d1 = d2)) then inr (list_lt d1 d2)
  else match l1, l2 with
       | None, None => inr false
       | Some x, Some y => inr (String.ltb x y)
       | None, Some _ =>
           inl (TypeError "'<' not supported between instances of 'NoneType' and 'str'")
       | Some _, None =>
           inl (TypeError "'<' not supported between instances of 'str' and 'NoneType'")
       end.

(** Insertion of [x] behind every element that is not greater than it. *)
Fixpoint sort_insert (x : work_item) (l : list work_item)
    : exn + list work_item :=
  match l with
  | [] => inr [x]
  | y :: l' =>
      match item_lt x y with
      | inl e => inl e
      | inr true => inr (x :: y :: l')
      | inr false =>
          match sort_insert x l' with
          | inl e => inl e
          | inr r => inr (y :: r)
          end
      end
  end.

Fixpoint sort_from (sorted : list work_item) (l : list work_item)
    : exn + list work_item :=
  match l with
  | [] => inr sorted
  | x :: l' =>
      match sort_insert x sorted with
      | inl e => inl e
      | inr sorted' => sort_from sorted' l'
      end
  end.

(** [list.sort()] as a stable sort by the comparison [<] of the elements,
    which fails when a comparison fails. On the lists that [check_certs]
    builds no comparison fails and the result is the only ordered
    permutation ([check_loop_links_agree], [list_sort_unique]), so the
    algorithm that Python runs returns the same list. *)
Definition list_sort (l : list work_item) : exn + list work_item :=
  sort_from [] l.

(** The order of Python on [str], as a strict order. *)
Global Instance string_lexico : Lexico string := λ s1 s2,
  String.ltb s1 s2 = true.

(** The components of a tuple of [to_do] that decide its place in the
    sorted list: [(remaining_days, name, domains)]. *)
Definition item_key (it : work_item) : Z * string * list string := it.1.

(** [a] is not behind [b] in the order of the keys: by [remaining_days],
    then by [name], then by [domains]. *)
Definition key_le (a b : work_item) : Prop :=
  lexico (item_key a) (item_key b) ∨ item_key a = item_key b.

(** Two tuples with the same name carry the same link. *)
Definition links_agree (l : list work_item) : Prop :=
  ∀ a b, a ∈ l → b ∈ l → item_name a = item_name b → item_link a = item_link b.

Section Program.
Context (c : collab).

(** ** Library calls *)

(** [os.environ[k]] *)
Definition os_environ (k : string) : M string :=
  match environ c !! k with
  | Some v => ret v
  | None => raise (KeyError k)
  end.

(** [os.getenv(k, default)] *)
Definition os_getenv (k default : string) : string :=
  match environ c !! k with
  | Some v => v
  | None => default
  end.

Definition uuid4 : M string := n <- next_tick ;; ret (uuid4_hex c n).

Definition datetime_now : M Z := n <- next_tick ;; ret (clock c n).

(** [(a - b).days]: a [timedelta] is normalised with its seconds and
    microseconds non-negative, so [days] is the floor. *)
Definition timedelta_days (delta : Z) : Z := (delta `div` 86400000000)%Z.

(** [with open(path, "r") as f: f.read()] *)
Definition read_file (path : string) : M string :=
  emit (FileRead path) ;;
  fs <- get_files ;;
  match fs !! path with
  | Some content => ret content
  | None => raise (FileNotFoundError path)
  end.

(** [with open(path, "w") as f: f.write(content)] *)
Definition write_file (path content : string) : M unit :=
  emit (FileWrite path content) ;;
  fs <- get_files ;;
  set_files (<[path := content]> fs).

(** [os.remove(path)] *)
Definition os_remove (path : string) : M unit :=
  emit (FileRemove path) ;;
  fs <- get_files ;;
  match fs !! path with
  | Some _ => set_files (delete path fs)
  | None => raise (FileNotFoundError path)
  end.

Definition requests (r : request) : M response :=
  n <- next_tick ;;
  emit (HttpRequest r) ;;
  lift (http c n r).

(** The argument that follows [-out]. *)
Fixpoint out_path (args : list string) : option string :=
  match args with
  | [] => None
  | a :: rest =>
      if bool_decide (a = "-out") then head rest else out_path rest
  end.

(** [subprocess.Popen(argv, ...)] followed by [communicate]. Of the file
    system the process is taken to change at most the file named by
    [-out], which it may write whether it succeeds or not. *)
Definition run_process (argv : list string) : M proc_result :=
  n <- next_tick ;;
  emit (Subprocess argv) ;;
  fs <- get_files ;;
  p <- lift (popen c n argv fs) ;;
  match out_path argv, out_file p with
  | Some path, Some content => set_files (<[path := content]> fs)
  | _, _ => ret tt
  end ;;
  ret p.

Definition acme_tiny_get_crt (account_key csr_file acme_dir : string)
    (kw : tiny_kwargs) : M string :=
  n <- next_tick ;;
  emit (AcmeGetCrt account_key csr_file acme_dir kw) ;;
  fs <- get_files ;;
  lift (get_crt c n account_key csr_file fs acme_dir kw).

(** ** [rancher_get_certs] *)

Definition rancher_get_certs : M (list rancher_cert) :=
  url <- os_environ "CATTLE_URL" ;;
  access <- os_environ "CATTLE_ACCESS_KEY" ;;
  secret <- os_environ "CATTLE_SECRET_KEY" ;;
  r <- requests (Request GET (url +:+ "/certificates") None [] (access, secret)) ;;
  if negb (status_code r =? 200)%Z then
    raise (Exception ("Rancher returned non-200 code: "
                      +:+ str_int (status_code r) +:+ " - " +:+ text r))
  else lift (json_data r).

(** ** [rancher_save_cert] *)

Definition json_headers : list (string * string) :=
  [("Content-Type", "application/json")].

Definition rancher_save_cert (name private_key cert : string)
    (link : option string) : M unit :=
  let payload := [("key", private_key); ("cert", cert)] in
  r <- match link with
      | None =>
          let payload := payload ++ [("name", name)] in
          url <- os_environ "CATTLE_URL" ;;
          access <- os_environ "CATTLE_ACCESS_KEY" ;;
          secret <- os_environ "CATTLE_SECRET_KEY" ;;
          requests (Request POST (url +:+ "/certificates") (Some payload)
                            json_headers (access, secret))
      | Some link =>
          access <- os_environ "CATTLE_ACCESS_KEY" ;;
          secret <- os_environ "CATTLE_SECRET_KEY" ;;
          requests (Request PUT link (Some payload) json_headers
                            (access, secret))
      end ;;
  if negb (bool_decide (status_code r ∈ [200; 201]%Z)) then
    raise (Exception ("Rancher returned non-200 code: "
                      +:+ str_int (status_code r) +:+ " - " +:+ text r))
  else ret tt.

(** ** [openssl] *)

Definition openssl (args : list string) : M string :=
  p <- run_process ("openssl" :: args) ;;
  if negb (returncode p =? 0)%Z then
    raise (IOError ("OpenSSL Error: " +:+ stderr p))
  else ret (stdout p).

(** [l[i]] *)
Definition list_index {A} (l : list A) (i : nat) : M A :=
  match l !! i with
  | Some x => ret x
  | None => raise (LibraryError "IndexError" "list index out of range")
  end.

(** ** [make_cert] *)

(** The line feed of the Python literals. *)
Definition nl : string := String "010" EmptyString.

(** The CSR block of [make_cert]: the statement
    [if len(domains) == 1: ... else: ...]. *)
Definition make_cert_csr (domains : list string)
    (private_key_file csr_file : string) : M unit :=
  if bool_decide (length domains = 1) then
    d0 <- list_index domains 0 ;;
    openssl ["req"; "-new"; "-sha256"; "-key"; private_key_file;
             "-out"; csr_file; "-subj"; "/CN=" +:+ d0] ;;
    ret tt
  else
    u3 <- uuid4 ;;
    let csr_config_file := "/tmp/" +:+ u3 in
    logger_debug ("Generating CSR config to " +:+ csr_config_file +:+ "...") ;;
    openssl_config <- read_file "/etc/ssl/openssl.cnf" ;;
    let openssl_config :=
      openssl_config +:+ nl +:+ "[SAN]" +:+ nl +:+ "subjectAltName=DNS:"
      +:+ join ",DNS:" domains +:+ nl in
    write_file csr_config_file openssl_config ;;
    openssl ["req"; "-new"; "-sha256"; "-key"; private_key_file;
             "-out"; csr_file; "-subj"; "/"; "-reqexts"; "SAN";
             "-config"; csr_config_file] ;;
    logger_debug "Deleting CSR config file..." ;;
    os_remove csr_config_file.

Definition make_cert (config : config) (name : string)
    (domains : list string) (link : option string) : M unit :=
  logger_info ("Creating certificate " +:+ name +:+ " for domains: "
               +:+ join ", " domains) ;;
  if bool_decide (length domains < 1) then
    raise (Exception "No domains for certificate")
  else
  u1 <- uuid4 ;;
  let private_key_file := "/tmp/" +:+ u1 in
  u2 <- uuid4 ;;
  let csr_file := "/tmp/" +:+ u2 in
  logger_debug ("Generating private key to " +:+ private_key_file +:+ "...") ;;
  openssl ["genrsa"; "-out"; private_key_file; str_int (key_length config)] ;;
  private_key <- read_file private_key_file ;;
  logger_debug ("Generating CSR to " +:+ csr_file +:+ "...") ;;
  make_cert_csr domains private_key_file csr_file ;;
  logger_debug "Deleting private key file..." ;;
  os_remove private_key_file ;;
  logger_info "Signing CSR using acme_tiny..." ;;
  tiny_kwargs <- match ca config with
                 | Some url => ret (KwCA url)
                 | None =>
                     match ca_directory config with
                     | Some url => ret (KwDirectoryUrl url)
                     | None => raise (KeyError "ca_directory")
                     end
                 end ;;
  cert <- acme_tiny_get_crt (account_key config) csr_file (acme_dir config)
                            tiny_kwargs ;;
  logger_debug "Deleting CSR file..." ;;
  os_remove csr_file ;;
  logger_info "Saving cert in Rancher..." ;;
  rancher_save_cert name private_key cert link.

(** ** [load_config] *)

Definition strip_cert (cert : cert_config) : cert_config :=
  CertConfig (strip (cc_name cert)) (strip <$> cc_domains cert).

Definition load_config : M config :=
  doc <- read_file "config/config.yml" ;;
  config <- lift (yaml_safe_load c doc) ;;
  if bool_decide (is_Some (ca config)) && bool_decide (is_Some (ca_directory config)) then
    raise (Exception "The config should have either ca_directory or ca (deprecated) but not both.")
  else
  (if bool_decide (is_Some (ca config)) then
     logger_warning "The config 'ca' is deprecated, please use 'ca_directory' instead."
   else ret tt) ;;
  (if bool_decide (is_Some (chain config)) then
     logger_warning "The config 'chain' is not used anymore."
   else ret tt) ;;
  ret (Config (ca config) (ca_directory config) (chain config)
              (key_length config) (account_key config) (acme_dir config)
              (strip_cert <$> certs config)).

(** ** [check_certs] *)

(** The dictionary built by the first loop of [check_certs]. *)
Definition index_certs (rancher_certs : list rancher_cert)
    : gmap string rancher_cert :=
  foldl (λ by_name cert, <[strip (rc_name cert) := cert]> by_name)
        ∅ rancher_certs.

(** The body of the loop over [config["certs"]]. *)
Definition check_cert (now : Z) (by_name : gmap string rancher_cert)
    (to_do : list work_item) (cert_config : cert_config)
    : M (list work_item) :=
  let name := cc_name cert_config in
  let domains := cc_domains cert_config in
  match by_name !! name with
  | None =>
      logger_info ("- Cert " +:+ name +:+ " does not exists") ;;
      ret (to_do ++ [(0%Z, name, domains, None)])
  | Some rancher_cert =>
      let link := links_self rancher_cert in
      if contains_sublist (subjectAlternativeNames rancher_cert) domains then
        cert_exp <- lift (strptime c (expiresAt rancher_cert)) ;;
        let remaining_days := timedelta_days (cert_exp - now) in
        logger_info ("- Cert " +:+ name +:+ " expires in "
                     +:+ str_int remaining_days +:+ " days") ;;
        if (remaining_days <? 30)%Z then
          ret (to_do ++ [(remaining_days, name, domains, Some link)])
        else ret to_do
      else
        logger_info ("- Cert " +:+ name +:+ " is missing domains") ;;
        ret (to_do ++ [(0%Z, name, domains, Some link)])
  end.

Fixpoint check_loop (now : Z) (by_name : gmap string rancher_cert)
    (to_do : list work_item) (l : list cert_config) : M (list work_item) :=
  match l with
  | [] => ret to_do
  | cert_config :: l' =>
      to_do' <- check_cert now by_name to_do cert_config ;;
      check_loop now by_name to_do' l'
  end.

(** [check_certs] up to and including [to_do.sort()]. *)
Definition check_certs_queue (config : config) : M (list work_item) :=
  now <- datetime_now ;;
  logger_info "Getting certificates from Rancher..." ;;
  rancher_certs <- rancher_get_certs ;;
  let rancher_certs_by_name := index_certs rancher_certs in
  logger_debug "Found certs from Rancher:" ;;
  for_each rancher_certs (λ cert,
    logger_debug ("- " +:+ rc_name cert +:+ ": "
                  +:+ join ", " (subjectAlternativeNames cert))) ;;
  logger_debug "Found certs from config:" ;;
  for_each (certs config) (λ cert,
    logger_debug ("- " +:+ cc_name cert +:+ ": "
                  +:+ join ", " (cc_domains cert))) ;;
  logger_info "Checking certs:" ;;
  to_do <- check_loop now rancher_certs_by_name [] (certs config) ;;
  lift (list_sort to_do).

Definition check_certs (config : config) : M nat :=
  to_do <- check_certs_queue config ;;
  for_each to_do (λ '(_, name, domains, link),
    make_cert config name domains link) ;;
  ret (length to_do).

(** ** [single_run] *)

(** [%s] of an optional string. *)
Definition str_opt (o : option string) : string := default "None" o.

Definition single_run : M nat :=
  start_time <- datetime_now ;;
  logger_info ("*** Rancher Auto Certs started " +:+ strftime c start_time
               +:+ " ***") ;;
  config <- load_config ;;
  logger_debug ("Using CA " +:+ str_opt (ca config) +:+ " and directory "
                +:+ str_opt (ca_directory config)) ;;
  logger_debug ("Using account key: " +:+ account_key config) ;;
  nb_certs <- check_certs config ;;
  end_time <- datetime_now ;;
  logger_info ("*** " +:+ str_int (Z.of_nat nb_certs) +:+ " cert(s) created in "
               +:+ str_timedelta c (end_time - start_time) +:+ " ***") ;;
  ret nb_certs.

(** ** [daemon] *)

Definition statsd_OK : Z := 0.
Definition statsd_CRITICAL : Z := 2.

(** One iteration of the [while True] loop. *)
Definition daemon_iteration : M unit :=
  try_except
    (nb_certs <- single_run ;;
     emit (StatsdEvent "Rancher Auto Certs executed successfully"
             (str_int (Z.of_nat nb_certs) +:+ " certificate(s) created or renewed")
             "success") ;;
     emit (ServiceCheck "rancher_auto_certs.status" statsd_OK))
    (λ e,
     emit (PrintExc e) ;;
     emit (StatsdEvent "Rancher Auto Certs encountered an error"
             ("Please check container logs." +:+ nl +:+ exn_name e
              +:+ ": " +:+ exn_str e)
             "error") ;;
     emit (ServiceCheck "rancher_auto_certs.status" statsd_CRITICAL)) ;;
  emit (Sleep (24 * 60 * 60)).

(** The first [n] iterations of the loop, which has no exit. *)
Fixpoint daemon_loop (n : nat) : M unit :=
  match n with
  | O => ret tt
  | S n' => daemon_iteration ;; daemon_loop n'
  end.

Definition daemon (n : nat) : M unit :=
  port <- lift (int_of_str c (os_getenv "DOGSTATSD_PORT" "8125")) ;;
  emit (DatadogInit (os_getenv "DOGSTATSD_HOST" "127.0.0.1") port) ;;
  daemon_loop n.

End Program.

(** ** What the events of a run say *)

(** The file an event creates: the program writes it, or a process is
    told to write it with [-out]. *)
Definition created_path (e : event) : option string :=
  match e with
  | FileWrite p _ => Some p
  | Subprocess args => out_path args
  | _ => None
  end.

Definition created_paths (ev : list event) : list string :=
  omap created_path ev.

Definition is_http (e : event) : bool :=
  match e with HttpRequest _ => true | _ => false end.

Definition is_acme (e : event) : bool :=
  match e with AcmeGetCrt _ _ _ _ => true | _ => false end.

(** The events of a pass up to the classification loop, given what the
    store answered. *)
Definition queue_prelude (config : config) (observed : list rancher_cert)
    (ev_get : list event) : list event :=
  [Log INFO "Getting certificates from Rancher..."] ++ ev_get
  ++ [Log DEBUG "Found certs from Rancher:"]
  ++ ((λ cert, Log DEBUG ("- " +:+ rc_name cert +:+ ": "
                          +:+ join ", " (subjectAlternativeNames cert)))
      <$> observed)
  ++ [Log DEBUG "Found certs from config:"]
  ++ ((λ cert, Log DEBUG ("- " +:+ cc_name cert +:+ ": "
                          +:+ join ", " (cc_domains cert)))
      <$> certs config)
  ++ [Log INFO "Checking certs:"].

Definition is_log (e : event) : bool :=
  match e with Log _ _ => true | _ => false end.

Definition is_sleep (e : event) : bool :=
  match e with Sleep _ => true | _ => false end.

(** A request that only reads from the store. *)
Definition is_get (e : event) : bool :=
  match e with
  | HttpRequest r => if req_method r is GET then true else false
  | _ => false
  end.

(** ** The daemon as the specification words it

    Section 4.5 of the specification: each iteration runs a single pass in
    isolation, reports one of two outcomes to the monitoring collaborator
    (success with the count, or failure with the category and the message
    of the error), then sleeps one day. *)

Definition one_day : Z := 86400.

Definition spec_report (outcome : exn + nat) : list event :=
  match outcome with
  | inr nb_certs =>
      [StatsdEvent "Rancher Auto Certs executed successfully"
         (str_int (Z.of_nat nb_certs) +:+ " certificate(s) created or renewed")
         "success";
       ServiceCheck "rancher_auto_certs.status" 0]
  | inl e =>
      [PrintExc e;
       StatsdEvent "Rancher Auto Certs encountered an error"
         ("Please check container logs." +:+ nl +:+ exn_name e +:+ ": "
          +:+ exn_str e)
         "error";
       ServiceCheck "rancher_auto_certs.status" 2]
  end.

(** The state and the events after [n] iterations. *)
Fixpoint spec_daemon (c : collab) (n : nat) (s : state) : state * list event :=
  match n with
  | O => (s, [])
  | S n' =>
      let '(outcome, s1, ev) := single_run c s in
      let '(s2, ev') := spec_daemon c n' s1 in
      (s2, ev ++ spec_report outcome ++ [Sleep one_day] ++ ev')
  end.

(** * Example collaborators

    A small world in which the program can be run: the clock stands at
    noon of 1 January 1970, Rancher answers with a fixed list of
    certificates, [openssl req] exits with a chosen status and the signing
    returns a chosen result. *)

Definition day : Z := 86400000000.

Definition example_strptime (s : string) : exn + Z :=
  if bool_decide (s = "Sun Jan 11 00:00:00 UTC 1970") then inr (10 * day)%Z
  else if bool_decide (s = "Tue Jan 06 00:00:00 UTC 1970") then inr (5 * day)%Z
  else if bool_decide (s = "Sat Apr 11 00:00:00 UTC 1970") then inr (100 * day)%Z
  else if bool_decide (s = "Mon Dec 29 00:00:00 UTC 1969") then inr (-3 * day)%Z
  else inl (ValueError ("time data '" +:+ s
                        +:+ "' does not match format '%a %b %d %H:%M:%S %Z %Y'")).

Definition example_environ : gmap string string :=
  {[ "CATTLE_URL" := "http://rancher/v1";
     "CATTLE_ACCESS_KEY" := "access";
     "CATTLE_SECRET_KEY" := "secret" ]}.

Definition example_collab (doc : config) (observed : list rancher_cert)
    (req_status : Z) (signed : exn + string) : collab :=
  {| uuid4_hex n := "uuid" +:+ pretty n;
     clock _ := (day `div` 2)%Z;
     strptime := example_strptime;
     strftime _ := "1970-01-01 12:00";
     str_timedelta _ := "0:00:00";
     int_of_str s :=
       if bool_decide (s = "8125") then inr 8125%Z
       else inl (ValueError ("invalid literal for int() with base 10: '"
                             +:+ s +:+ "'"));
     environ := example_environ;
     yaml_safe_load _ := inr doc;
     http _ r :=
       match req_method r with
       | GET => inr (Response 200 "" (inr observed))
       | POST => inr (Response 201 "" (inr []))
       | PUT => inr (Response 200 "" (inr []))
       end;
     popen _ args _ :=
       if bool_decide ("req" ∈ args) && negb (req_status =? 0)%Z then
         inr (ProcResult req_status "" "req: cannot build the request" None)
       else inr (ProcResult 0 "" "" (Some "PEM"));
     get_crt _ _ _ _ _ _ := signed |}.

Definition example_config (ca ca_directory : option string)
    (certs : list cert_config) : config :=
  Config ca ca_directory None 2048 "account.key" "/var/www/challenges" certs.

Definition example_state : state :=
  State {[ "config/config.yml" := "certs: ...";
           "/etc/ssl/openssl.cnf" := "[ req ]" ]} 0.

(** * The rest of the program *)

(** ** [setup_logging] *)

Inductive stream := Stdout | Stderr.

(** [logging.DEBUG], [logging.INFO] and [logging.WARNING] *)
Definition levelno (lvl : level) : Z :=
  match lvl with DEBUG => 10 | INFO => 20 | WARNING => 30 end.

(** A [logging.StreamHandler]: its stream, its level and its filters, which
    see the level of the record. *)
Record handler := Handler {
  h_stream : stream;
  h_level : Z;
  h_filters : list (Z → bool)
}.

(** The logger of the module as [setup_logging] leaves it. *)
Record logger := Logger {
  l_level : Z;
  l_handlers : list handler
}.

(** [InfoFilter.filter]: [rec.levelno in (logging.DEBUG, logging.INFO)] *)
Definition InfoFilter (rec_levelno : Z) : bool :=
  bool_decide (rec_levelno ∈ [levelno DEBUG; levelno INFO]).

Definition setup_logging (c : collab) : logger :=
  let h1 := Handler Stdout (levelno DEBUG) [InfoFilter] in
  let h2 := Handler Stderr (levelno WARNING) [] in
  Logger (if bool_decide (is_Some (environ c !! "LOG_DEBUG"))
          then levelno DEBUG else levelno INFO)
         [h1; h2].

(** [Logger.handle] of the library: a record below the level of the logger
    is dropped; otherwise every handler at whose level the record is, and
    whose filters accept it, writes it to its stream. *)
Definition streams_of (lg : logger) (lvl : level) : list stream :=
  if (levelno lvl <? l_level lg)%Z then []
  else h_stream <$>
       List.filter (λ h, (h_level h <=? levelno lvl)%Z
                         && forallb (λ f, f (levelno lvl)) (h_filters h))
                   (l_handlers lg).

(** The messages that the log calls of a run put on the two streams. *)
Definition written (lg : logger) (ev : list event) : list (stream * string) :=
  flat_map (λ e, match e with
                 | Log lvl msg => (λ st, (st, msg)) <$> streams_of lg lvl
                 | _ => []
                 end) ev.

(** ** [main] *)

(** [sys.argv] is a parameter; the daemon runs its first [n] iterations.
    The logger that [setup_logging] configures is read by [written]. *)
Definition main (c : collab) (argv : list string) (n : nat) : M unit :=
  if bool_decide ("--daemon" ∈ argv) then daemon c n
  else bind (single_run c) (λ _, ret tt).

(** ** More example collaborators *)

(** [c] with another store behind it. *)
Definition with_http (c : collab) (h : nat → request → exn + response)
    : collab :=
  Collab (uuid4_hex c) (clock c) (strptime c) (strftime c) (str_timedelta c)
         (int_of_str c) (environ c) (yaml_safe_load c) h (popen c) (get_crt c).

(** [c] in another environment. *)
Definition with_environ (c : collab) (env : gmap string string) : collab :=
  Collab (uuid4_hex c) (clock c) (strptime c) (strftime c) (str_timedelta c)
         (int_of_str c) env (yaml_safe_load c) (http c) (popen c) (get_crt c).

(** ** More readings of the events *)

(** A request that writes to the store. *)
Definition is_save (e : event) : bool :=
  match e with
  | HttpRequest r => if req_method r is GET then false else true
  | _ => false
  end.

(** What the daemon alone does: the reports to the monitoring, the
    traceback and the sleep. *)
Definition is_monitoring (e : event) : bool :=
  match e with
  | DatadogInit _ _ | StatsdEvent _ _ _ | ServiceCheck _ _ | PrintExc _
  | Sleep _ => true
  | _ => false
  end.


Definition is_init (e : event) : bool :=
  match e with DatadogInit _ _ => true | _ => false end.

(** A path that is not of the form [/tmp/...]. *)
Definition outside_tmp (path : string) : Prop := ∀ u, path ≠ "/tmp/" +:+ u.

(** [m] changes no file outside [/tmp] and emits events of [P] only. *)
Definition keeps {A} (P : event → bool) (m : M A) : Prop :=
  ∀ s r s' ev, m s = (r, s', ev) →
    (∀ path, outside_tmp path → files s' !! path = files s !! path) ∧
    forallb P ev = true.

(** * Properties *)

(** ** The order of the tuples *)

Lemma string_compare_refl (s : string) : String.compare s s = Eq.
Proof.
  induction s as [|a s IH]; simpl; [done|].
  unfold Ascii.compare. by rewrite N.compare_refl.
Qed.

Lemma string_ltb_strict (s1 s2 : string) :
  String.ltb s1 s2 = true ↔ strict String.le s1 s2.
Proof.
  unfold strict, String.le, String.ltb, String.leb.
  rewrite (String.compare_antisym s2 s1).
  destruct (String.compare s1 s2); simpl; intuition congruence.
Qed.

Global Instance string_lexico_po : StrictOrder (@lexico string _).
Proof.
  split.
  - intros s H. apply string_ltb_strict in H. by apply (irreflexivity (strict String.le) s).
  - intros s1 s2 s3 H1%string_ltb_strict H2%string_ltb_strict.
    apply string_ltb_strict. by trans s2.
Qed.

Global Instance string_lexico_trichotomy : TrichotomyT (@lexico string _).
Proof.
  intros s1 s2. unfold lexico, string_lexico, String.ltb.
  rewrite (String.compare_antisym s2 s1).
  destruct (String.compare s1 s2) eqn:E; simpl.
  - left; right. by apply String.compare_eq_iff.
  - by left; left.
  - by right.
Qed.

Lemma list_lt_lexico (l1 l2 : list string) :
  list_lt l1 l2 = true ↔ lexico l1 l2.
Proof.
  revert l2. induction l1 as [|x l1 IH]; intros [|y l2]; simpl; try done.
  unfold lexico at 1, prod_lexico; simpl. case_bool_decide as Hxy.
  - subst y. rewrite IH. split; [by right|].
    intros [H|[_ H]]; [|done]. by apply (irreflexivity lexico) in H.
  - split; [by left|]. by intros [H|[? _]].
Qed.

Global Instance key_le_trans : Transitive key_le.
Proof.
  intros a b d [H1|H1] [H2|H2]; unfold key_le in *.
  - left. by trans (item_key b).
  - left. by rewrite <-H2.
  - left. by rewrite H1.
  - right. congruence.
Qed.

Lemma key_le_urgency (a b : work_item) :
  key_le a b → (item_urgency a ≤ item_urgency b)%Z.
Proof.
  destruct a as [[[u1 n1] d1] l1], b as [[[u2 n2] d2] l2].
  unfold key_le, item_key, item_urgency; simpl.
  intros [[[H|[? _]]|[[=] _]]|[=]]; simplify_eq/=; try lia.
  unfold lexico, Z_lexico in H. lia.
Qed.

(** When [a < b] evaluates, it is the strict order of the keys, except
    that two tuples with one key are ordered by their links. *)
Lemma item_lt_true (a b : work_item) : item_lt a b = inr true → key_le a b.
Proof.
  destruct a as [[[u1 n1] d1] l1], b as [[[u2 n2] d2] l2].
  unfold item_lt, key_le, item_key; simpl.
  destruct (decide (u1 = u2)) as [->|Hu]; simpl.
  2:{ rewrite bool_decide_eq_false_2 by done. simpl. intros [= H%Z.ltb_lt].
      by do 3 left. }
  rewrite bool_decide_eq_true_2 by done. simpl.
  destruct (decide (n1 = n2)) as [->|Hn]; simpl.
  2:{ rewrite bool_decide_eq_false_2 by done. simpl. intros [= H].
      left. left. by right. }
  rewrite bool_decide_eq_true_2 by done. simpl.
  destruct (decide (d1 = d2)) as [->|Hd]; simpl.
  2:{ rewrite bool_decide_eq_false_2 by done. simpl. intros [= H%list_lt_lexico].
      left. by right. }
  by right.
Qed.

Lemma item_lt_false (a b : work_item) : item_lt a b = inr false → key_le b a.
Proof.
  destruct a as [[[u1 n1] d1] l1], b as [[[u2 n2] d2] l2].
  unfold item_lt, key_le, item_key; simpl.
  destruct (decide (u1 = u2)) as [->|Hu]; simpl.
  2:{ rewrite bool_decide_eq_false_2 by done. simpl. intros [= H%Z.ltb_nlt].
      do 3 left. unfold lexico, Z_lexico; simpl. lia. }
  rewrite bool_decide_eq_true_2 by done. simpl.
  destruct (decide (n1 = n2)) as [->|Hn]; simpl.
  2:{ rewrite bool_decide_eq_false_2 by done. simpl. intros [= H].
      left. left. right. split; [done|]. simpl.
      destruct (trichotomy lexico n1 n2) as [Hl|[?|?]]; [|done..].
      unfold lexico, string_lexico in Hl. congruence. }
  rewrite bool_decide_eq_true_2 by done. simpl.
  destruct (decide (d1 = d2)) as [->|Hd]; simpl.
  2:{ rewrite bool_decide_eq_false_2 by done. simpl. intros [= H].
      left. right. split; [done|]. simpl.
      destruct (trichotomy lexico d1 d2) as [Hl|[?|?]]; [|done..].
      apply list_lt_lexico in Hl. congruence. }
  by right.
Qed.

Lemma item_lt_comparable (a b : work_item) :
  (item_name a = item_name b → item_link a = item_link b) →
  ∃ r, item_lt a b = inr r.
Proof.
  destruct a as [[[u1 n1] d1] l1], b as [[[u2 n2] d2] l2].
  unfold item_lt, item_name, item_link; simpl. intros H.
  repeat case_bool_decide; simpl; eauto.
  subst. rewrite H by done. destruct l2; eauto.
Qed.

(** ** [list.sort()] *)

Lemma sort_insert_perm (x : work_item) (l r : list work_item) :
  sort_insert x l = inr r → r ≡ₚ x :: l.
Proof.
  revert r. induction l as [|y l IH]; intros r; simpl.
  - by intros [= <-].
  - destruct (item_lt x y) as [e|[]]; [done|by intros [= <-]|].
    destruct (sort_insert x l) as [e|r']; [done|]. intros [= <-].
    rewrite (IH r' eq_refl). apply Permutation_swap.
Qed.

Lemma sort_insert_sorted (x : work_item) (l r : list work_item) :
  sort_insert x l = inr r →
  StronglySorted key_le l → StronglySorted key_le r.
Proof.
  revert r. induction l as [|y l IH]; intros r; simpl.
  - intros [= <-] _. repeat constructor.
  - destruct (item_lt x y) as [e|[]] eqn:Hlt; [done|..].
    + intros [= <-] Hs. apply item_lt_true in Hlt.
      constructor; [done|]. constructor; [done|].
      apply StronglySorted_inv in Hs as [_ Hy].
      eapply Forall_impl; [exact Hy|]. intros z ?. by trans y.
    + destruct (sort_insert x l) as [e|r'] eqn:Hins; [done|]. intros [= <-] Hs.
      apply StronglySorted_inv in Hs as [Hs Hy].
      constructor; [by apply IH|].
      rewrite (sort_insert_perm _ _ _ Hins). constructor; [|done].
      by apply item_lt_false.
Qed.

Lemma sort_insert_total (x : work_item) (l : list work_item) :
  (∀ y, y ∈ l → ∃ b, item_lt x y = inr b) → ∃ r, sort_insert x l = inr r.
Proof.
  induction l as [|y l IH]; intros H; simpl; [eauto|].
  destruct (H y) as [[] ->]; [by left|eauto|].
  destruct IH as [r ->]; [|eauto]. intros z ?. apply H. by right.
Qed.

Lemma links_agree_perm (l1 l2 : list work_item) :
  l1 ≡ₚ l2 → links_agree l1 → links_agree l2.
Proof. intros Hp H a b Ha Hb. apply H; by rewrite Hp. Qed.

Lemma sort_from_perm (acc l r : list work_item) :
  sort_from acc l = inr r → r ≡ₚ acc ++ l.
Proof.
  revert acc. induction l as [|x l IH]; intros acc; simpl.
  - intros [= <-]. by rewrite app_nil_r.
  - destruct (sort_insert x acc) as [e|acc'] eqn:Hins; [done|].
    intros ->%IH. rewrite (sort_insert_perm _ _ _ Hins).
    apply Permutation_middle.
Qed.

Lemma sort_from_sorted (acc l r : list work_item) :
  sort_from acc l = inr r →
  StronglySorted key_le acc → StronglySorted key_le r.
Proof.
  revert acc. induction l as [|x l IH]; intros acc; simpl.
  - by intros [= <-].
  - destruct (sort_insert x acc) as [e|acc'] eqn:Hins; [done|].
    intros Hr Hs. eapply IH; [done|]. by eapply sort_insert_sorted.
Qed.

Lemma sort_from_total (acc l : list work_item) :
  links_agree (acc ++ l) → ∃ r, sort_from acc l = inr r.
Proof.
  revert acc. induction l as [|x l IH]; intros acc Hag; simpl; [eauto|].
  destruct (sort_insert_total x acc) as [acc' Hins].
  { intros y Hy. apply item_lt_comparable.
    apply Hag; set_solver. }
  rewrite Hins. apply IH.
  eapply links_agree_perm; [|exact Hag].
  rewrite (sort_insert_perm _ _ _ Hins). symmetry. apply Permutation_middle.
Qed.

(** A sort that succeeds returns the elements ordered by their keys. *)
Lemma list_sort_ok (l r : list work_item) :
  list_sort l = inr r → r ≡ₚ l ∧ StronglySorted key_le r.
Proof.
  intros H. split.
  - by apply sort_from_perm in H.
  - eapply sort_from_sorted; [done|constructor].
Qed.

(** The sort succeeds when the tuples with one name carry one link. *)
Lemma list_sort_total (l : list work_item) :
  links_agree l → ∃ r, list_sort l = inr r.
Proof. intros H. by apply sort_from_total. Qed.

Lemma key_le_antisym (a b : work_item) :
  key_le a b → key_le b a → item_key a = item_key b.
Proof.
  intros [H1|H1] [H2|H2]; try done.
  destruct (irreflexivity lexico (item_key a)). by trans (item_key b).
Qed.

(** The result does not depend on the sorting algorithm: when the tuples
    with one name carry one link, every permutation of the list that is
    ordered by the keys is the list that [list_sort] returns. *)
Lemma list_sort_unique (l l' : list work_item) :
  links_agree l → l' ≡ₚ l → StronglySorted key_le l' → list_sort l = inr l'.
Proof.
  intros Hagree Hperm Hsorted.
  destruct (list_sort_total l Hagree) as [q Hq]. rewrite Hq. f_equal.
  destruct (list_sort_ok l q Hq) as [Hpq Hsq].
  apply (StronglySorted_unique_strong key_le); [|done|done|by rewrite Hperm].
  intros x y Hx Hy Hxy Hyx. pose proof (key_le_antisym x y Hxy Hyx) as Hkey.
  assert (item_link x = item_link y) as Hlink.
  { apply Hagree; [by rewrite <-Hpq|by rewrite <-Hperm|].
    unfold item_name, item_key in *. by rewrite Hkey. }
  destruct x as [kx lx], y as [ky ly]. unfold item_key, item_link in *.
  simpl in *. congruence.
Qed.

(** ** Running the monad *)

Lemma bind_inv {A B} (m : M A) (f : A → M B) s r s' ev :
  bind m f s = (r, s', ev) →
  (∃ e, m s = (inl e, s', ev) ∧ r = inl e) ∨
  (∃ a s1 ev1 ev2,
     m s = (inr a, s1, ev1) ∧ f a s1 = (r, s', ev2) ∧ ev = ev1 ++ ev2).
Proof.
  unfold bind. destruct (m s) as [[[e|a] s1] ev1].
  - intros [= <- <- <-]. left. eauto.
  - destruct (f a s1) as [[r2 s2] ev2] eqn:Hf. intros [= <- <- <-].
    right. exists a, s1, ev1, ev2. eauto.
Qed.

Lemma bind_ok {A B} (m : M A) (f : A → M B) s a s1 ev1 :
  m s = (inr a, s1, ev1) →
  bind m f s = (let '(r, s2, ev2) := f a s1 in (r, s2, ev1 ++ ev2)).
Proof. unfold bind. intros ->. by destruct (f a s1) as [[??]?]. Qed.

Lemma bind_err {A B} (m : M A) (f : A → M B) s e s1 ev1 :
  m s = (inl e, s1, ev1) → bind m f s = (inl e, s1, ev1).
Proof. unfold bind. by intros ->. Qed.

Lemma bind_assoc {A B C} (m : M A) (f : A → M B) (g : B → M C) s :
  bind (bind m f) g s = bind m (λ a, bind (f a) g) s.
Proof.
  unfold bind. destruct (m s) as [[[e|a] s1] ev1]; [done|].
  destruct (f a s1) as [[[e|b] s2] ev2]; [done|].
  destruct (g b s2) as [[r s3] ev3]. by rewrite (assoc_L (++)).
Qed.

Lemma bind_ext {A B} (m : M A) (f g : A → M B) s :
  (∀ a s1, f a s1 = g a s1) → bind m f s = bind m g s.
Proof.
  intros H. unfold bind. destruct (m s) as [[[e|a] s1] ev1]; [done|].
  by rewrite H.
Qed.

Lemma bind_emit {B} (e : event) (f : unit → M B) s :
  bind (emit e) f s = (let '(r, s2, ev2) := f tt s in (r, s2, e :: ev2)).
Proof. unfold bind, emit. by destruct (f tt s) as [[??]?]. Qed.

(** Unfolds the primitive operations of the monad. *)
Ltac run_M :=
  cbv [bind ret raise lift emit logger_info logger_debug logger_warning
       next_tick get_files set_files try_except];
  cbn [files tick].

Ltac run_M_in H :=
  cbv [bind ret raise lift emit logger_info logger_debug logger_warning
       next_tick get_files set_files try_except] in H;
  cbn [files tick] in H.

Section Reconciler_facts.
Context (c : collab).

(** ** The classification loop of [check_certs] *)

(** The body of the loop leaves the state alone, and what it appends does
    not depend on the list it appends to. *)
Lemma check_cert_frame now by_name to_do cc s r s' ev :
  check_cert c now by_name to_do cc s = (r, s', ev) →
  s' = s ∧
  ((∃ e, r = inl e ∧
         ∀ to_do0 s0, check_cert c now by_name to_do0 cc s0 = (inl e, s0, ev)) ∨
   ∃ d, r = inr (to_do ++ d) ∧ length d ≤ 1 ∧
        ∀ to_do0 s0, check_cert c now by_name to_do0 cc s0
                     = (inr (to_do0 ++ d), s0, ev)).
Proof.
  unfold check_cert. destruct (by_name !! cc_name cc) as [rc|].
  - destruct (contains_sublist _ _).
    + destruct (strptime c (expiresAt rc)) as [e|cert_exp]; run_M.
      * intros [= <- <- <-]. split; [done|]. left. eauto.
      * destruct (_ <? 30)%Z; intros [= <- <- <-]; (split; [done|]); right.
        -- eexists [_]. simpl. eauto.
        -- exists []. simpl. rewrite app_nil_r. split_and!; [done|lia|].
           intros. by rewrite app_nil_r.
    + run_M. intros [= <- <- <-]. split; [done|]. right. eexists [_]. simpl. eauto.
  - run_M. intros [= <- <- <-]. split; [done|]. right. eexists [_]. simpl. eauto.
Qed.

Lemma check_loop_frame now by_name to_do l s r s' ev :
  check_loop c now by_name to_do l s = (r, s', ev) →
  s' = s ∧
  ((∃ e, r = inl e ∧
         ∀ to_do0 s0, check_loop c now by_name to_do0 l s0 = (inl e, s0, ev)) ∨
   ∃ d, r = inr (to_do ++ d) ∧
        ∀ to_do0 s0, check_loop c now by_name to_do0 l s0
                     = (inr (to_do0 ++ d), s0, ev)).
Proof.
  revert to_do s r s' ev. induction l as [|cc l IH]; intros to_do s r s' ev; simpl.
  - intros [= <- <- <-]. split; [done|]. right. exists []. rewrite app_nil_r.
    split; [done|]. intros. by rewrite app_nil_r.
  - intros [(e & H & ->)|(q1 & s1 & ev1 & ev2 & H & Hl & ->)]%bind_inv.
    + apply check_cert_frame in H as (-> & [(e' & [= <-] & Hf)|(d & [=] & _)]).
      split; [done|]. left. exists e. split; [done|]. intros.
      by rewrite (bind_err _ _ _ _ _ _ (Hf to_do0 s0)).
    + apply check_cert_frame in H as (-> & [(e' & [=] & _)|(d & [= ->] & _ & Hf)]).
      apply IH in Hl as (-> & [(e & -> & Hl)|(d' & -> & Hl)]); (split; [done|]).
      * left. exists e. split; [done|]. intros.
        rewrite (bind_ok _ _ _ _ _ _ (Hf to_do0 s0)). by rewrite Hl.
      * right. exists (d ++ d'). rewrite (assoc_L (++)). split; [done|]. intros.
        rewrite (bind_ok _ _ _ _ _ _ (Hf to_do0 s0)). rewrite Hl.
        by rewrite (assoc_L (++)).
Qed.

Lemma check_loop_app now by_name to_do l1 l2 s :
  check_loop c now by_name to_do (l1 ++ l2) s
  = bind (check_loop c now by_name to_do l1)
         (λ to_do', check_loop c now by_name to_do' l2) s.
Proof.
  revert to_do s. induction l1 as [|cc l1 IH]; intros to_do s; simpl.
  - unfold bind, ret. by destruct (check_loop _ _ _ _ _ _) as [[??]?].
  - rewrite bind_assoc. apply bind_ext. intros q s1. apply IH.
Qed.

(** A run of the loop is the run over the certificates before one of them,
    the body at that one and the run over the certificates behind it, each
    started from the empty list. *)
Lemma check_loop_split now by_name pre cc post s q s' ev :
  check_loop c now by_name [] (pre ++ cc :: post) s = (inr q, s', ev) →
  ∃ q1 d q2 ev1 ev2 ev3,
    check_loop c now by_name [] pre s = (inr q1, s, ev1) ∧
    check_cert c now by_name [] cc s = (inr d, s, ev2) ∧
    check_loop c now by_name [] post s = (inr q2, s, ev3) ∧
    q = q1 ++ d ++ q2 ∧ s' = s ∧ ev = ev1 ++ ev2 ++ ev3.
Proof.
  rewrite check_loop_app.
  intros [(e & _ & [=])|(q1 & s1 & ev1 & ev' & H1 & H2 & ->)]%bind_inv.
  simpl in H2.
  apply bind_inv in H2 as [(e & _ & [=])|(q2 & s2 & ev2 & ev3 & H2 & H3 & ->)].
  pose proof (check_loop_frame _ _ _ _ _ _ _ _ H1) as [-> _].
  apply check_cert_frame in H2 as (-> & [(e & [=] & _)|(d & [= ->] & _ & H2)]).
  apply check_loop_frame in H3 as (-> & [(e & [=] & _)|(d' & [= ->] & H3)]).
  exists q1, d, d', ev1, ev2, ev3.
  split_and!; [done|apply (H2 [] s)|apply (H3 [] s)| |done|done].
  by rewrite <-(assoc_L (++)).
Qed.

(** What one certificate of the configuration appends is found in the list
    the loop returns, between what the certificates before it and behind
    it append. *)
Lemma check_loop_contribution now by_name pre cc post s q s' ev d evd :
  (∀ to_do s0, check_cert c now by_name to_do cc s0
               = (inr (to_do ++ d), s0, evd)) →
  check_loop c now by_name [] (pre ++ cc :: post) s = (inr q, s', ev) →
  ∃ q1 q2,
    q = q1 ++ d ++ q2 ∧
    (check_loop c now by_name [] pre s).1.1 = inr q1 ∧
    (check_loop c now by_name [] post s).1.1 = inr q2.
Proof.
  intros Hd (q1 & d' & q2 & ev1 & ev2 & ev3 & H1 & H2 & H3 & -> & _)%check_loop_split.
  rewrite (Hd [] s) in H2. injection H2 as <- _.
  exists q1, q2. by rewrite H1, H3.
Qed.

End Reconciler_facts.

(** ** The index of the observed certificates *)

Lemma index_certs_snoc (l : list rancher_cert) (rc : rancher_cert) :
  index_certs (l ++ [rc]) = <[strip (rc_name rc) := rc]> (index_certs l).
Proof. unfold index_certs. by rewrite foldl_app. Qed.

Lemma index_certs_None (l : list rancher_cert) (name : string) :
  index_certs l !! name = None ↔ ∀ rc, rc ∈ l → strip (rc_name rc) ≠ name.
Proof.
  induction l as [|rc l IH] using rev_ind.
  - split; [by intros _ ? ?%elem_of_nil|]. done.
  - rewrite index_certs_snoc, lookup_insert_None, IH. split.
    + intros [H1 H2] rc' [?| ->%list_elem_of_singleton]%elem_of_app; auto.
    + intros H. split; [|apply H; set_solver]. intros rc' ?. apply H. set_solver.
Qed.

Lemma index_certs_Some (l : list rancher_cert) (name : string) rc :
  index_certs l !! name = Some rc → rc ∈ l ∧ strip (rc_name rc) = name.
Proof.
  induction l as [|rc' l IH] using rev_ind; [done|].
  rewrite index_certs_snoc, lookup_insert_Some.
  intros [[<- <-]|[_ H]]; [set_solver|]. apply IH in H. set_solver.
Qed.

(** ** [contains_sublist] *)

Lemma contains_sublist_spec (lst sublst : list string) :
  contains_sublist lst sublst = true ↔ ∀ d, d ∈ sublst → d ∈ lst.
Proof.
  induction sublst as [|e rest IH]; simpl.
  - split; [by intros _ ? ?%elem_of_nil|done].
  - case_bool_decide as He; simpl.
    + rewrite IH. split.
      * intros H d [->|?]%elem_of_cons; auto.
      * intros H d ?. apply H. by right.
    + split; [done|]. intros H. destruct He. apply H. by left.
Qed.

Lemma contains_sublist_ext (lst lst' sublst sublst' : list string) :
  (∀ d, d ∈ lst' ↔ d ∈ lst) → (∀ d, d ∈ sublst' ↔ d ∈ sublst) →
  contains_sublist lst' sublst' = contains_sublist lst sublst.
Proof.
  intros H1 H2. apply eq_true_iff_eq. rewrite !contains_sublist_spec.
  split; intros H d Hd.
  - apply H1, H, H2, Hd.
  - apply H1, H, H2, Hd.
Qed.

(** C5: the coverage check is the subset test: it holds exactly when every
    desired domain is among the observed names, it still holds when more
    names are observed, and it does not depend on the order of either
    list. *)
Theorem contains_sublist_subset_test (lst sublst : list string) :
  (contains_sublist lst sublst = true ↔ ∀ d, d ∈ sublst → d ∈ lst) ∧
  (∀ extra, contains_sublist lst sublst = true →
            contains_sublist (lst ++ extra) sublst = true) ∧
  (∀ lst' sublst', lst' ≡ₚ lst → sublst' ≡ₚ sublst →
     contains_sublist lst' sublst' = contains_sublist lst sublst).
Proof.
  split_and!.
  - apply contains_sublist_spec.
  - intros extra. rewrite !contains_sublist_spec. intros H d Hd.
    apply elem_of_app. left. by apply H.
  - intros lst' sublst' H1 H2. apply contains_sublist_ext; intros d.
    + by rewrite H1.
    + by rewrite H2.
Qed.

(** The example of the specification: desired [a, b] against observed
    [b, a, c]. *)
Lemma contains_sublist_subset_test_witness :
  contains_sublist ["b"; "a"; "c"] ["a"; "b"] = true ∧
  contains_sublist (["b"; "a"] ++ ["c"]) ["a"; "b"] = true ∧
  contains_sublist ["a"; "b"] ["b"; "a"] = contains_sublist ["b"; "a"] ["a"; "b"].
Proof.
  destruct (contains_sublist_subset_test ["b"; "a"] ["a"; "b"]) as (_ & Hmore & Hperm).
  split_and!.
  - reflexivity.
  - apply Hmore. reflexivity.
  - apply Hperm; apply Permutation_swap.
Defined.

(** ** The classification of one desired certificate *)

(** C4: a desired certificate whose name no observed certificate has, once
    trimmed, appends one tuple with urgency 0 and the link [None]; one that
    is matched by name and not covered appends one tuple with urgency 0 and
    the link of the observed certificate. In both cases the tuple is in the
    list the loop returns, at the place of the certificate. *)
Theorem check_cert_absent_or_missing_domains (c : collab) (now : Z)
    (observed : list rancher_cert) (cc : cert_config) :
  let by_name := index_certs observed in
  let name := cc_name cc in
  let domains := cc_domains cc in
  ((∀ rc, rc ∈ observed → strip (rc_name rc) ≠ name) →
   let item : work_item := (0%Z, name, domains, None) in
   (∀ to_do s, ∃ ev,
      check_cert c now by_name to_do cc s = (inr (to_do ++ [item]), s, ev)) ∧
   (∀ pre post s q s' ev,
      check_loop c now by_name [] (pre ++ cc :: post) s = (inr q, s', ev) →
      ∃ q1 q2, q = q1 ++ [item] ++ q2 ∧
               (check_loop c now by_name [] pre s).1.1 = inr q1 ∧
               (check_loop c now by_name [] post s).1.1 = inr q2)) ∧
  (∀ rc, by_name !! name = Some rc →
   contains_sublist (subjectAlternativeNames rc) domains = false →
   let item : work_item := (0%Z, name, domains, Some (links_self rc)) in
   (∀ to_do s, ∃ ev,
      check_cert c now by_name to_do cc s = (inr (to_do ++ [item]), s, ev)) ∧
   (∀ pre post s q s' ev,
      check_loop c now by_name [] (pre ++ cc :: post) s = (inr q, s', ev) →
      ∃ q1 q2, q = q1 ++ [item] ++ q2 ∧
               (check_loop c now by_name [] pre s).1.1 = inr q1 ∧
               (check_loop c now by_name [] post s).1.1 = inr q2)).
Proof.
  cbv zeta. split.
  - intros Hno%index_certs_None.
    assert (∀ to_do s, check_cert c now (index_certs observed) to_do cc s
      = (inr (to_do ++ [(0%Z, cc_name cc, cc_domains cc, None)]), s,
         [Log INFO ("- Cert " +:+ cc_name cc +:+ " does not exists")])) as Hrun.
    { intros to_do s. unfold check_cert. by rewrite Hno. }
    split; [by eauto|]. intros pre post s q s' ev.
    by apply check_loop_contribution
      with (evd := [Log INFO ("- Cert " +:+ cc_name cc +:+ " does not exists")]).
  - intros rc Hrc Hsub.
    assert (∀ to_do s, check_cert c now (index_certs observed) to_do cc s
      = (inr (to_do ++ [(0%Z, cc_name cc, cc_domains cc, Some (links_self rc))]), s,
         [Log INFO ("- Cert " +:+ cc_name cc +:+ " is missing domains")])) as Hrun.
    { intros to_do s. unfold check_cert. by rewrite Hrc, Hsub. }
    split; [by eauto|]. intros pre post s q s' ev.
    by apply check_loop_contribution
      with (evd := [Log INFO ("- Cert " +:+ cc_name cc +:+ " is missing domains")]).
Qed.

(** Scenarios A and B of the specification: no certificate named [site]
    is observed; and one is observed that lacks [b.com]. *)
Lemma check_cert_absent_or_missing_domains_witness :
  let c := example_collab (example_config None (Some "https://acme/dir") []) [] 0 (inr "CERT") in
  let rc := RancherCert " site" ["a.com"] "Sat Apr 11 00:00:00 UTC 1970" "http://rancher/v1/certificates/1" in
  (∃ ev, check_cert c (day `div` 2) (index_certs []) []
           (CertConfig "site" ["a.com"]) example_state
         = (inr [(0%Z, "site", ["a.com"], None)], example_state, ev)) ∧
  (∃ ev, check_cert c (day `div` 2) (index_certs [rc]) []
           (CertConfig "site" ["a.com"; "b.com"]) example_state
         = (inr [(0%Z, "site", ["a.com"; "b.com"],
                  Some "http://rancher/v1/certificates/1")], example_state, ev)).
Proof.
  intros c rc. split.
  - destruct (check_cert_absent_or_missing_domains c (day `div` 2) []
                (CertConfig "site" ["a.com"])) as [Habsent _].
    destruct Habsent as [Hrun _].
    + intros rc' Hin. by apply elem_of_nil in Hin.
    + apply (Hrun [] example_state).
  - destruct (check_cert_absent_or_missing_domains c (day `div` 2) [rc]
                (CertConfig "site" ["a.com"; "b.com"])) as [_ Hgap].
    destruct (Hgap rc) as [Hrun _].
    + vm_compute. reflexivity.
    + vm_compute. reflexivity.
    + apply (Hrun [] example_state).
Defined.

(** C3: a desired certificate that is matched by name and covered, and
    whose expiry parses, has [remaining_days] the floor of the days between
    now and the expiry; below 30 the loop appends one tuple whose urgency
    is [remaining_days], negative or not, and from 30 on it appends
    nothing. *)
Theorem check_cert_expiring (c : collab) (now : Z)
    (observed : list rancher_cert) (cc : cert_config) (rc : rancher_cert)
    (cert_exp : Z) :
  index_certs observed !! cc_name cc = Some rc →
  contains_sublist (subjectAlternativeNames rc) (cc_domains cc) = true →
  strptime c (expiresAt rc) = inr cert_exp →
  ∃ remaining_days : Z,
    (86400000000 * remaining_days ≤ cert_exp - now
     < 86400000000 * (remaining_days + 1))%Z ∧
    let item : work_item :=
      (remaining_days, cc_name cc, cc_domains cc, Some (links_self rc)) in
    let enqueued := if bool_decide (remaining_days < 30)%Z then [item] else [] in
    (∀ to_do s, ∃ ev,
       check_cert c now (index_certs observed) to_do cc s
       = (inr (to_do ++ enqueued), s, ev)) ∧
    (∀ pre post s q s' ev,
       check_loop c now (index_certs observed) [] (pre ++ cc :: post) s
       = (inr q, s', ev) →
       ∃ q1 q2, q = q1 ++ enqueued ++ q2 ∧
                (check_loop c now (index_certs observed) [] pre s).1.1 = inr q1 ∧
                (check_loop c now (index_certs observed) [] post s).1.1 = inr q2).
Proof.
  intros Hrc Hsub Hexp. exists (timedelta_days (cert_exp - now)). split.
  { unfold timedelta_days.
    pose proof (Z.div_mod (cert_exp - now) 86400000000 ltac:(lia)) as Hdm.
    pose proof (Z.mod_pos_bound (cert_exp - now) 86400000000 ltac:(lia)) as Hm.
    lia. }
  cbv zeta.
  set (enqueued := if bool_decide _ then _ else _).
  assert (∀ to_do s, check_cert c now (index_certs observed) to_do cc s
    = (inr (to_do ++ enqueued), s,
       [Log INFO ("- Cert " +:+ cc_name cc +:+ " expires in "
                  +:+ str_int (timedelta_days (cert_exp - now)) +:+ " days")]))
    as Hrun.
  { intros to_do s. unfold check_cert. rewrite Hrc, Hsub. run_M. rewrite Hexp.
    subst enqueued. case_bool_decide as Hlt.
    - apply Z.ltb_lt in Hlt. by rewrite Hlt.
    - apply Z.ltb_nlt in Hlt. rewrite Hlt. simpl. by rewrite app_nil_r. }
  split; [by eauto|]. intros pre post s q s' ev.
  by eapply check_loop_contribution.
Qed.

(** Scenario C of the specification, seen at noon: the certificate expires
    at midnight ten days later, which leaves nine whole days; and a
    certificate that expired three days ago. *)
Lemma check_cert_expiring_witness :
  let c := example_collab (example_config None (Some "https://acme/dir") []) [] 0 (inr "CERT") in
  let rc := RancherCert "site" ["a.com"; "b.com"] "Sun Jan 11 00:00:00 UTC 1970" "http://rancher/v1/certificates/1" in
  let old := RancherCert "old" ["c.com"] "Mon Dec 29 00:00:00 UTC 1969" "http://rancher/v1/certificates/2" in
  (∃ ev, check_cert c 43200000000%Z (index_certs [rc; old]) []
           (CertConfig "site" ["a.com"]) example_state
         = (inr [(9%Z, "site", ["a.com"],
                  Some "http://rancher/v1/certificates/1")], example_state, ev)) ∧
  (∃ ev, check_cert c 43200000000%Z (index_certs [rc; old]) []
           (CertConfig "old" ["c.com"]) example_state
         = (inr [((-4)%Z, "old", ["c.com"],
                  Some "http://rancher/v1/certificates/2")], example_state, ev)).
Proof.
  intros c rc old. split.
  - destruct (check_cert_expiring c 43200000000%Z [rc; old]
                (CertConfig "site" ["a.com"]) rc 864000000000%Z)
      as (remaining_days & Hfloor & Hrun & _).
    + vm_compute. reflexivity.
    + vm_compute. reflexivity.
    + vm_compute. reflexivity.
    + assert (remaining_days = 9%Z) as -> by lia.
      apply (Hrun [] example_state).
  - destruct (check_cert_expiring c 43200000000%Z [rc; old]
                (CertConfig "old" ["c.com"]) old (-259200000000)%Z)
      as (remaining_days & Hfloor & Hrun & _).
    + vm_compute. reflexivity.
    + vm_compute. reflexivity.
    + vm_compute. reflexivity.
    + assert (remaining_days = (-4)%Z) as -> by lia.
      apply (Hrun [] example_state).
Defined.

(** ** The operations on the outside world *)

Section Operations.
Context (c : collab).

Lemma uuid4_run s :
  uuid4 c s = (inr (uuid4_hex c (tick s)), State (files s) (S (tick s)), []).
Proof. done. Qed.

Lemma read_file_inv path s r s' ev :
  read_file path s = (r, s', ev) →
  s' = s ∧ ev = [FileRead path] ∧
  ((∃ content, r = inr content ∧ files s !! path = Some content) ∨
   (r = inl (FileNotFoundError path) ∧ files s !! path = None)).
Proof.
  unfold read_file. run_M. destruct (files s !! path) as [content|] eqn:E;
    intros ?; simplify_eq/=; eauto 10.
Qed.

Lemma write_file_run path content s :
  write_file path content s
  = (inr tt, State (<[path := content]> (files s)) (tick s),
     [FileWrite path content]).
Proof. done. Qed.

Lemma os_remove_inv path s r s' ev :
  os_remove path s = (r, s', ev) →
  ev = [FileRemove path] ∧
  ((r = inr tt ∧ files s' = delete path (files s)) ∨
   (r = inl (FileNotFoundError path) ∧ s' = s)).
Proof.
  unfold os_remove. run_M. destruct (files s !! path) as [content|];
    intros ?; simplify_eq/=; eauto.
Qed.

(** A process changes at most the file named by [-out]. *)
Lemma run_process_inv argv s r s' ev :
  run_process c argv s = (r, s', ev) →
  ev = [Subprocess argv] ∧
  (files s' = files s ∨
   ∃ path content, out_path argv = Some path ∧
                   files s' = <[path := content]> (files s)).
Proof.
  unfold run_process. run_M.
  destruct (popen c (tick s) argv (files s)) as [e|p].
  { intros ?; simplify_eq/=. eauto. }
  destruct (out_path argv) as [path|], (out_file p) as [content|];
    intros ?; simplify_eq/=; eauto 10.
Qed.

Lemma openssl_inv args s r s' ev :
  openssl c args s = (r, s', ev) →
  ev = [Subprocess ("openssl" :: args)] ∧
  (files s' = files s ∨
   ∃ path content, out_path ("openssl" :: args) = Some path ∧
                   files s' = <[path := content]> (files s)).
Proof.
  unfold openssl.
  intros [(e & H & ->)|(p & s1 & ev1 & ev2 & H & H2 & ->)]%bind_inv.
  - by apply run_process_inv in H.
  - apply run_process_inv in H as [-> H].
    destruct (negb _); run_M_in H2; by simplify_eq/=.
Qed.

Lemma acme_tiny_get_crt_inv account_key csr_file acme_dir kw s r s' ev :
  acme_tiny_get_crt c account_key csr_file acme_dir kw s = (r, s', ev) →
  ev = [AcmeGetCrt account_key csr_file acme_dir kw] ∧ files s' = files s.
Proof. unfold acme_tiny_get_crt. run_M. intros ?. by simplify_eq/=. Qed.

Lemma os_environ_inv k s r s' ev :
  os_environ c k s = (r, s', ev) → s' = s ∧ ev = [].
Proof.
  unfold os_environ. destruct (environ c !! k); run_M; intros ?; by simplify_eq/=.
Qed.

Lemma requests_inv req s r s' ev :
  requests c req s = (r, s', ev) → files s' = files s ∧ ev = [HttpRequest req].
Proof. unfold requests. run_M. intros ?. by simplify_eq/=. Qed.

End Operations.

(** Inversion of one step of a run. *)
Ltac inv_step c :=
  match goal with
  | H : bind _ _ _ = (_, _, _) |- _ =>
      apply bind_inv in H as [(? & ? & ?)|(? & ? & ? & ? & ? & ? & ?)];
      simplify_eq
  | H : uuid4 c _ = _ |- _ => rewrite uuid4_run in H; simplify_eq
  | H : read_file _ _ = _ |- _ =>
      apply read_file_inv in H as (? & ? & [(? & ? & ?)|[? ?]]); simplify_eq
  | H : write_file _ _ _ = _ |- _ => rewrite write_file_run in H; simplify_eq
  | H : os_remove _ _ = _ |- _ =>
      apply os_remove_inv in H as (? & [[? ?]|[? ?]]); simplify_eq
  | H : openssl c _ _ = _ |- _ =>
      apply openssl_inv in H as (? & [?|(? & ? & ? & ?)]); simplify_eq
  | H : acme_tiny_get_crt c _ _ _ _ _ = _ |- _ =>
      apply acme_tiny_get_crt_inv in H as (? & ?); simplify_eq
  | H : os_environ c _ _ = _ |- _ =>
      apply os_environ_inv in H as (? & ?); simplify_eq
  | H : requests c _ _ = _ |- _ =>
      apply requests_inv in H as (? & ?); simplify_eq
  | H : logger_info _ _ = _ |- _ => run_M_in H; simplify_eq
  | H : logger_debug _ _ = _ |- _ => run_M_in H; simplify_eq
  | H : logger_warning _ _ = _ |- _ => run_M_in H; simplify_eq
  | H : ret _ _ = _ |- _ => run_M_in H; simplify_eq
  | H : raise _ _ = _ |- _ => run_M_in H; simplify_eq
  | H : lift _ _ = _ |- _ => run_M_in H; simplify_eq
  | H : list_index _ _ _ = _ |- _ => unfold list_index in H
  | H : (if ?b then _ else _) _ = (_, _, _) |- _ => destruct b eqn:?
  | H : (match ?x with _ => _ end) _ = (_, _, _) |- _ => destruct x eqn:?
  end.

Section Orchestrator_facts.
Context (c : collab).

Lemma rancher_save_cert_inv name private_key cert link s r s' ev :
  rancher_save_cert c name private_key cert link s = (r, s', ev) →
  files s' = files s ∧ created_paths ev = [] ∧ existsb is_acme ev = false.
Proof.
  unfold rancher_save_cert. intros H.
  repeat inv_step c; split_and!; done || congruence.
Qed.

Lemma out_path_genrsa (key n : string) :
  out_path ["openssl"; "genrsa"; "-out"; key; n] = Some key.
Proof. done. Qed.

Lemma out_path_req (key csr : string) (rest : list string) :
  out_path ("openssl" :: "req" :: "-new" :: "-sha256" :: "-key"
            :: ("/tmp/" +:+ key) :: "-out" :: csr :: rest) = Some csr.
Proof. done. Qed.

Ltac chain_files :=
  cbn [files tick] in *;
  repeat match goal with
         | H : out_path _ = Some _ |- _ =>
             first [rewrite out_path_req in H | rewrite out_path_genrsa in H];
             simplify_eq
         end;
  repeat match goal with
         | H : files ?x = _ |- _ => rewrite H in *; clear H
         end.

(** A path is absent once it was deleted, whatever was deleted later. *)
Ltac absent_after_delete :=
  solve [repeat first [apply lookup_delete_eq
                      | apply lookup_delete_None; right]].

(** The CSR block sends no request and does not sign; when it succeeds it
    leaves at most the CSR file behind. *)
Lemma make_cert_csr_inv domains key csr s r s' ev :
  make_cert_csr c domains ("/tmp/" +:+ key) csr s = (r, s', ev) →
  existsb is_http ev = false ∧ existsb is_acme ev = false ∧
  (r = inr tt →
   dom (files s') ⊆ {[csr]} ∪ dom (files s) ∧
   ∀ path, path ∈ created_paths ev → path ≠ csr → files s' !! path = None).
Proof.
  unfold make_cert_csr. intros H.
  repeat inv_step c; split_and!; try done.
  all: chain_files; intros _.
  all: split; [rewrite ?dom_delete_L, ?dom_insert_L; clear; set_solver|].
  all: simpl; intros path Hin Hne; set_unfold in Hin.
  all: destruct_or!; simplify_eq; absent_after_delete.
Qed.

Lemma http_event_existsb (ev : list event) :
  (∃ req, HttpRequest req ∈ ev) → existsb is_http ev = true.
Proof.
  intros [req Hin]. apply existsb_exists. exists (HttpRequest req).
  split; [by apply list_elem_of_In|done].
Qed.

Lemma acme_event_existsb (ev : list event) :
  (∃ k f d kw, AcmeGetCrt k f d kw ∈ ev) → existsb is_acme ev = true.
Proof.
  intros (k & f & d & kw & Hin). apply existsb_exists.
  exists (AcmeGetCrt k f d kw). split; [by apply list_elem_of_In|done].
Qed.

Ltac inv_block :=
  match goal with
  | H : make_cert_csr c _ _ _ _ = _ |- _ =>
      apply make_cert_csr_inv in H as (? & ? & ?)
  | H : rancher_save_cert c _ _ _ _ _ = _ |- _ =>
      apply rancher_save_cert_inv in H as (? & ? & ?)
  end.

Ltac no_event H :=
  exfalso; rewrite ?existsb_app in H;
  repeat match goal with
         | E : existsb _ _ = false |- _ => rewrite E in H; clear E
         end;
  cbn [existsb is_http is_acme orb] in H; discriminate H.

Lemma created_paths_app (ev1 ev2 : list event) :
  created_paths (ev1 ++ ev2) = created_paths ev1 ++ created_paths ev2.
Proof. apply omap_app. Qed.

(** C1, as the code has it: an attempt that succeeds, or that fails after
    the request to the store was sent, leaves no file behind: no path
    exists that did not exist before, and every path the attempt created
    (key, CSR, SAN configuration) is absent. Once the signing was called,
    the only file that can be left is the CSR file. *)
Theorem make_cert_cleanup cfg name domains link s r s' ev :
  make_cert c cfg name domains link s = (r, s', ev) →
  (r = inr tt ∨ (∃ req, HttpRequest req ∈ ev) →
   dom (files s') ⊆ dom (files s) ∧
   ∀ path, path ∈ created_paths ev → files s' !! path = None) ∧
  ((∃ k f d kw, AcmeGetCrt k f d kw ∈ ev) →
   ∀ path, path ∈ dom (files s') → path ∉ dom (files s) →
           path = "/tmp/" +:+ uuid4_hex c (S (tick s))).
Proof.
  unfold make_cert. intros H. repeat (inv_step c || inv_block).
  all: split; [intros [?|Hin%http_event_existsb]; [try done|try no_event Hin]
              |intros Hin%acme_event_existsb; try no_event Hin].
  all: try clear Hin.
  all: repeat match goal with
         | u : unit |- _ => destruct u
         | H : inr tt = inr tt → _ |- _ => destruct (H eq_refl) as [Hdom Hcreated]; clear H
         end.
  all: chain_files.
  all: try (intros path; rewrite ?dom_delete_L, ?dom_insert_L in *;
            clear -Hdom; set_solver).
  all: split; [rewrite ?dom_delete_L, ?dom_insert_L in *; clear -Hdom; set_solver|].
  all: intros path; rewrite !created_paths_app.
  all: match goal with
       | H : ∀ p, p ∈ created_paths ?l → _ |- _ => set (P := created_paths l) in *
       end.
  all: match goal with H : created_paths _ = [] |- _ => rewrite H end.
  all: simpl; rewrite ?app_nil_r; intros [->|Hin]%elem_of_cons;
       [absent_after_delete|].
  all: match type of Hcreated with
       | ∀ p, _ → p ≠ ?csr → _ =>
           destruct (decide (path = csr)) as [->|Hne]; [absent_after_delete|]
       end.
  all: do 2 (apply lookup_delete_None; right); by apply Hcreated.
Qed.

(** C6: with one domain [d] the CSR block runs one [openssl req] with
    the subject [/CN=d], no extension option and no configuration file.
    With two or more domains it writes the base template followed by a
    section [SAN] with [subjectAltName=DNS:a,DNS:b,...] in the order of the
    domains, and runs [openssl req] with the subject [/], [-reqexts SAN]
    and that file as [-config]. An attempt that succeeds ran the block on
    its domains, its key file and its CSR file. *)
Theorem make_cert_csr_request domains key csr s :
  (∀ d, domains = [d] →
     (make_cert_csr c domains key csr s).2
     = [Subprocess ["openssl"; "req"; "-new"; "-sha256"; "-key"; key;
                    "-out"; csr; "-subj"; "/CN=" +:+ d]]) ∧
  (2 ≤ length domains →
   ∀ base, files s !! "/etc/ssl/openssl.cnf" = Some base →
     let csr_config_file := "/tmp/" +:+ uuid4_hex c (tick s) in
     ∃ rest,
       (make_cert_csr c domains key csr s).2
       = [Log DEBUG ("Generating CSR config to " +:+ csr_config_file +:+ "...");
          FileRead "/etc/ssl/openssl.cnf";
          FileWrite csr_config_file
            (base +:+ nl +:+ "[SAN]" +:+ nl +:+ "subjectAltName=DNS:"
             +:+ join ",DNS:" domains +:+ nl);
          Subprocess ["openssl"; "req"; "-new"; "-sha256"; "-key"; key;
                      "-out"; csr; "-subj"; "/"; "-reqexts"; "SAN";
                      "-config"; csr_config_file]] ++ rest) ∧
  (∀ cfg name link s' ev,
     make_cert c cfg name domains link s = (inr tt, s', ev) →
     ∃ s1 s2 ev1 ev2 ev3,
       make_cert_csr c domains ("/tmp/" +:+ uuid4_hex c (tick s))
                     ("/tmp/" +:+ uuid4_hex c (S (tick s))) s1
       = (inr tt, s2, ev2) ∧
       ev = ev1 ++ ev2 ++ ev3).
Proof.
  split_and!.
  - intros d ->. destruct (make_cert_csr _ _ _ _ _) as [[r s'] ev] eqn:H.
    unfold make_cert_csr in H. rewrite bool_decide_eq_true_2 in H by done.
    repeat inv_step c; cbn [lookup list_lookup] in *; by simplify_eq.
  - intros Hlen base Hbase. cbv zeta.
    destruct (make_cert_csr _ _ _ _ _) as [[r s'] ev] eqn:H.
    unfold make_cert_csr in H. rewrite bool_decide_eq_false_2 in H by lia.
    repeat inv_step c; cbn [files tick] in *; simplify_eq;
      eexists; cbn [snd app]; reflexivity.
  - intros cfg name link s' ev H. unfold make_cert in H.
    repeat inv_step c.
    all: cbn [files tick] in *.
    all: repeat match goal with u : unit |- _ => destruct u end.
    all: match goal with
         | H : make_cert_csr _ _ _ _ ?s1 = (_, ?s2, ?ev2) |- _ =>
             eexists s1, s2, [_; _; _; _; _], ev2, _;
             split; [exact H|cbn [app]; reflexivity]
         end.
Qed.

End Orchestrator_facts.

(** A renewal of two domains that succeeds in the example world. *)
Lemma make_cert_cleanup_witness :
  let cfg := example_config None (Some "https://acme/dir") [] in
  let c := example_collab cfg [] 0 (inr "CERT") in
  let run := make_cert c cfg "site" ["a.com"; "b.com"] None example_state in
  run.1.1 = inr tt ∧
  dom (files run.1.2) ⊆ dom (files example_state) ∧
  ∀ path, path ∈ created_paths run.2 → files run.1.2 !! path = None.
Proof.
  intros cfg c run.
  assert (run = (run.1.1, run.1.2, run.2)) as Hrun by (by destruct run as [[??]?]).
  destruct (make_cert_cleanup c cfg _ _ _ _ _ _ _ Hrun) as [Hclean _].
  split; [vm_compute; reflexivity|].
  apply Hclean. left. vm_compute. reflexivity.
Defined.

(** C1 fails on two exit paths. When [openssl req] fails, the attempt ends
    with the private key still in [/tmp]; when the signing fails, it ends
    with the CSR file still in [/tmp]. Neither file existed before. *)
Lemma make_cert_cleanup_counterexample :
  let cfg := example_config None (Some "https://acme/dir") [] in
  let csr_fails := example_collab cfg [] 1 (inr "CERT") in
  let signing_fails :=
    example_collab cfg [] 0 (inl (ValueError "Challenge did not pass")) in
  let run1 := make_cert csr_fails cfg "site" ["a.com"] None example_state in
  let run2 := make_cert signing_fails cfg "site" ["a.com"] None example_state in
  (run1.1.1 = inl (IOError "OpenSSL Error: req: cannot build the request") ∧
   "/tmp/uuid0" ∈ created_paths run1.2 ∧
   files example_state !! "/tmp/uuid0" = None ∧
   files run1.1.2 !! "/tmp/uuid0" = Some "PEM") ∧
  (run2.1.1 = inl (ValueError "Challenge did not pass") ∧
   "/tmp/uuid1" ∈ created_paths run2.2 ∧
   files example_state !! "/tmp/uuid1" = None ∧
   files run2.1.2 !! "/tmp/uuid1" = Some "PEM").
Proof.
  cbv zeta. split_and!; try (vm_compute; reflexivity).
  - apply (list_elem_of_lookup_2 _ 0). vm_compute. reflexivity.
  - apply (list_elem_of_lookup_2 _ 1). vm_compute. reflexivity.
Qed.

(** The two examples of the specification: [example.com], and [a.com]
    with [b.com]. *)
Lemma make_cert_csr_request_witness :
  let cfg := example_config None (Some "https://acme/dir") [] in
  let c := example_collab cfg [] 0 (inr "CERT") in
  (make_cert_csr c ["example.com"] "/tmp/key" "/tmp/csr" example_state).2
  = [Subprocess ["openssl"; "req"; "-new"; "-sha256"; "-key"; "/tmp/key";
                 "-out"; "/tmp/csr"; "-subj"; "/CN=example.com"]] ∧
  ∃ rest,
    (make_cert_csr c ["a.com"; "b.com"] "/tmp/key" "/tmp/csr" example_state).2
    = [Log DEBUG "Generating CSR config to /tmp/uuid0...";
       FileRead "/etc/ssl/openssl.cnf";
       FileWrite "/tmp/uuid0"
         ("[ req ]" +:+ nl +:+ "[SAN]" +:+ nl
          +:+ "subjectAltName=DNS:a.com,DNS:b.com" +:+ nl);
       Subprocess ["openssl"; "req"; "-new"; "-sha256"; "-key"; "/tmp/key";
                   "-out"; "/tmp/csr"; "-subj"; "/"; "-reqexts"; "SAN";
                   "-config"; "/tmp/uuid0"]] ++ rest.
Proof.
  intros cfg c. split.
  - apply (make_cert_csr_request c ["example.com"] "/tmp/key" "/tmp/csr"
             example_state).
    reflexivity.
  - destruct (make_cert_csr_request c ["a.com"; "b.com"] "/tmp/key" "/tmp/csr"
                example_state) as (_ & Hsan & _).
    apply (Hsan ltac:(simpl; lia) "[ req ]"). vm_compute. reflexivity.
Defined.

(** ** Empty domain lists *)

Lemma make_cert_started (c : collab) cfg name domains link s r s' ev :
  domains ≠ [] →
  make_cert c cfg name domains link s = (r, s', ev) → 2 ≤ length ev.
Proof.
  intros Hne H. unfold make_cert in H.
  rewrite bool_decide_eq_false_2 in H by (destruct domains; [done|simpl; lia]).
  repeat inv_step c; rewrite ?length_app; simpl; lia.
Qed.

(** C10: [contains_sublist] holds of the empty list of domains, so a
    desired certificate without domains whose name is matched runs the
    branch of the covered certificates: its expiry is parsed and it is
    appended only when fewer than 30 days remain. The branch of the missing
    domains is taken for non-empty lists only, and [make_cert] rejects
    exactly the empty lists. *)
Theorem empty_domains_are_covered (c : collab) :
  (∀ lst, contains_sublist lst [] = true) ∧
  (∀ now (by_name : gmap string rancher_cert) cc rc to_do s,
     cc_domains cc = [] → by_name !! cc_name cc = Some rc →
     check_cert c now by_name to_do cc s
     = match strptime c (expiresAt rc) with
       | inl e => (inl e, s, [])
       | inr cert_exp =>
           let remaining_days := timedelta_days (cert_exp - now) in
           (inr (to_do ++
                 if (remaining_days <? 30)%Z
                 then [(remaining_days, cc_name cc, [], Some (links_self rc))]
                 else []),
            s,
            [Log INFO ("- Cert " +:+ cc_name cc +:+ " expires in "
                       +:+ str_int remaining_days +:+ " days")])
       end) ∧
  (∀ lst domains, contains_sublist lst domains = false → domains ≠ []) ∧
  (∀ cfg name domains link s,
     make_cert c cfg name domains link s
     = (inl (Exception "No domains for certificate"), s,
        [Log INFO ("Creating certificate " +:+ name +:+ " for domains: "
                   +:+ join ", " domains)])
     ↔ domains = []).
Proof.
  split_and!.
  - done.
  - intros now by_name cc rc to_do s Hd Hrc. unfold check_cert.
    rewrite Hrc, Hd. cbn [contains_sublist]. run_M.
    destruct (strptime c (expiresAt rc)) as [e|cert_exp]; [done|].
    cbv zeta. destruct (_ <? 30)%Z; [done|]. simpl. by rewrite app_nil_r.
  - by intros lst domains H ->.
  - intros cfg name domains link s. split.
    + intros H. destruct domains as [|d domains]; [done|].
      apply make_cert_started in H; [simpl in H; lia|done].
    + by intros ->.
Qed.

(** A desired certificate [site] without domains against an observed
    [site] that expires in nine days. *)
Lemma empty_domains_are_covered_witness :
  let cfg := example_config None (Some "https://acme/dir") [] in
  let c := example_collab cfg [] 0 (inr "CERT") in
  let rc := RancherCert "site" ["a.com"] "Sun Jan 11 00:00:00 UTC 1970" "http://rancher/v1/certificates/1" in
  check_cert c 43200000000 (index_certs [rc]) [] (CertConfig "site" [])
             example_state
  = (inr [(9%Z, "site", [], Some "http://rancher/v1/certificates/1")],
     example_state, [Log INFO "- Cert site expires in 9 days"]) ∧
  make_cert c cfg "site" [] (Some "http://rancher/v1/certificates/1")
            example_state
  = (inl (Exception "No domains for certificate"), example_state,
     [Log INFO "Creating certificate site for domains: "]).
Proof.
  intros cfg c rc.
  destruct (empty_domains_are_covered c) as (_ & Hcovered & _ & Hreject).
  split.
  - rewrite (Hcovered 43200000000%Z (index_certs [rc]) (CertConfig "site" [])
               rc [] example_state eq_refl); [reflexivity|].
    vm_compute. reflexivity.
  - apply (Hreject cfg "site" [] (Some "http://rancher/v1/certificates/1")
             example_state).
    reflexivity.
Defined.

(** ** The daemon *)

Lemma daemon_iteration_run (c : collab) (s : state) :
  daemon_iteration c s
  = (inr tt, (single_run c s).1.2,
     (single_run c s).2 ++ spec_report (single_run c s).1.1 ++ [Sleep one_day]).
Proof.
  unfold daemon_iteration, try_except, bind, emit.
  destruct (single_run c s) as [[[e|nb_certs] s1] ev]; simpl.
  - by rewrite <-!(assoc_L (++)).
  - by rewrite <-!(assoc_L (++)).
Qed.

(** C9: whatever a pass does, the iteration of the daemon ends normally:
    the exception of a failed pass is caught and reported as an error
    event, a successful pass is reported with its count, and the iteration
    then sleeps 86400 seconds; so the loop runs any number of iterations,
    and its events are those of the passes, each followed by its report and
    the sleep of one day. *)
Theorem daemon_loop_never_stops (c : collab) (n : nat) (s : state) :
  daemon_loop c n s = (inr tt, (spec_daemon c n s).1, (spec_daemon c n s).2) ∧
  (∀ e s1 ev, single_run c s = (inl e, s1, ev) →
     daemon_iteration c s
     = (inr tt, s1,
        ev ++ [PrintExc e;
               StatsdEvent "Rancher Auto Certs encountered an error"
                 ("Please check container logs." +:+ nl +:+ exn_name e
                  +:+ ": " +:+ exn_str e) "error";
               ServiceCheck "rancher_auto_certs.status" statsd_CRITICAL;
               Sleep (24 * 60 * 60)])) ∧
  (∀ nb_certs s1 ev, single_run c s = (inr nb_certs, s1, ev) →
     daemon_iteration c s
     = (inr tt, s1,
        ev ++ [StatsdEvent "Rancher Auto Certs executed successfully"
                 (str_int (Z.of_nat nb_certs)
                  +:+ " certificate(s) created or renewed") "success";
               ServiceCheck "rancher_auto_certs.status" statsd_OK;
               Sleep (24 * 60 * 60)])).
Proof.
  split_and!.
  - revert s. induction n as [|n IH]; intros s; [done|].
    cbn [daemon_loop spec_daemon].
    rewrite (bind_ok _ _ _ _ _ _ (daemon_iteration_run c s)), IH.
    destruct (single_run c s) as [[outcome s1] ev]. cbn [fst snd].
    destruct (spec_daemon c n s1) as [s2 ev']. cbn [fst snd].
    by rewrite <-!(assoc_L (++)).
  - intros e s1 ev H. rewrite daemon_iteration_run, H. reflexivity.
  - intros nb_certs s1 ev H. rewrite daemon_iteration_run, H. reflexivity.
Qed.

(** A pass that fails because the configuration declares both [ca] and
    [ca_directory], inside two iterations of the daemon. *)
Lemma daemon_loop_never_stops_witness :
  let cfg := example_config (Some "https://acme/ca") (Some "https://acme/dir") [] in
  let c := example_collab cfg [] 0 (inr "CERT") in
  (daemon_loop c 2 example_state).1.1 = inr tt ∧
  List.filter is_sleep (daemon_loop c 2 example_state).2
  = [Sleep 86400; Sleep 86400] ∧
  ∃ s1 ev, daemon_iteration c example_state
           = (inr tt, s1, ev ++ [Sleep 86400]).
Proof.
  intros cfg c. split_and!.
  - destruct (daemon_loop_never_stops c 2 example_state) as [-> _]. reflexivity.
  - destruct (daemon_loop_never_stops c 2 example_state) as [-> _].
    vm_compute. reflexivity.
  - destruct (daemon_loop_never_stops c 0 example_state) as (_ & Hfail & _).
    eexists _, (_ ++ [_; _; _]). rewrite <-(assoc_L (++)).
    apply Hfail. vm_compute. reflexivity.
Defined.

(** ** Loading the configuration *)

Lemma read_file_run path content s :
  files s !! path = Some content →
  read_file path s = (inr content, s, [FileRead path]).
Proof. intros H. unfold read_file. run_M. by rewrite H. Qed.

(** C7: when the document declares both [ca] and [ca_directory],
    [load_config] raises, and the pass ends there: it has logged its start
    and read the file, and no request was sent. A document with exactly one
    of the two is accepted and returned with its names and domains
    stripped. *)
Theorem load_config_ca_exclusive (c : collab) (s : state) (doc : string)
    (cfg : config) :
  files s !! "config/config.yml" = Some doc →
  yaml_safe_load c doc = inr cfg →
  (is_Some (ca cfg) → is_Some (ca_directory cfg) →
   let e := Exception "The config should have either ca_directory or ca (deprecated) but not both." in
   load_config c s = (inl e, s, [FileRead "config/config.yml"]) ∧
   single_run c s
   = (inl e, State (files s) (S (tick s)),
      [Log INFO ("*** Rancher Auto Certs started "
                 +:+ strftime c (clock c (tick s)) +:+ " ***");
       FileRead "config/config.yml"])) ∧
  ((is_Some (ca cfg) ∧ ca_directory cfg = None) ∨
   (ca cfg = None ∧ is_Some (ca_directory cfg)) →
   load_config c s
   = (inr (Config (ca cfg) (ca_directory cfg) (chain cfg) (key_length cfg)
                  (account_key cfg) (acme_dir cfg) (strip_cert <$> certs cfg)),
      s,
      FileRead "config/config.yml"
      :: (if ca cfg is Some _
          then [Log WARNING "The config 'ca' is deprecated, please use 'ca_directory' instead."]
          else [])
      ++ (if chain cfg is Some _
          then [Log WARNING "The config 'chain' is not used anymore."]
          else []))).
Proof.
  intros Hfile Hyaml.
  assert (∀ s0, files s0 = files s →
    is_Some (ca cfg) → is_Some (ca_directory cfg) →
    load_config c s0
    = (inl (Exception "The config should have either ca_directory or ca (deprecated) but not both."),
       s0, [FileRead "config/config.yml"])) as Hboth.
  { intros s0 Hs0 [x Hx] [y Hy]. unfold load_config.
    rewrite (bind_ok _ _ _ _ _ _ (read_file_run _ doc s0 ltac:(by rewrite Hs0))).
    run_M. rewrite Hyaml, Hx, Hy. reflexivity. }
  split.
  - intros Hca Hdir. cbv zeta. split; [by apply Hboth|].
    unfold single_run, datetime_now. run_M.
    rewrite (Hboth (State (files s) (S (tick s))) eq_refl Hca Hdir).
    reflexivity.
  - intros Hone. unfold load_config.
    rewrite (bind_ok _ _ _ _ _ _ (read_file_run _ doc s Hfile)).
    run_M. rewrite Hyaml.
    destruct Hone as [[[x Hx] Hy]|[Hx [y Hy]]]; rewrite Hx, Hy;
      destruct (chain cfg); reflexivity.
Qed.

(** Scenario D of the specification, and a document with [ca_directory]
    alone whose names carry blanks. *)
Lemma load_config_ca_exclusive_witness :
  let both := example_config (Some "https://acme/ca") (Some "https://acme/dir") [] in
  let one := example_config None (Some "https://acme/dir")
               [CertConfig " site " [" a.com"; "b.com "]] in
  (single_run (example_collab both [] 0 (inr "CERT")) example_state).1.1
  = inl (Exception "The config should have either ca_directory or ca (deprecated) but not both.") ∧
  (single_run (example_collab both [] 0 (inr "CERT")) example_state).2
  = [Log INFO "*** Rancher Auto Certs started 1970-01-01 12:00 ***";
     FileRead "config/config.yml"] ∧
  (load_config (example_collab one [] 0 (inr "CERT")) example_state).1.1
  = inr (example_config None (Some "https://acme/dir")
           [CertConfig "site" ["a.com"; "b.com"]]).
Proof.
  intros both one.
  destruct (load_config_ca_exclusive (example_collab both [] 0 (inr "CERT"))
              example_state "certs: ..." both) as [Hboth _].
  { vm_compute. reflexivity. }
  { reflexivity. }
  destruct (load_config_ca_exclusive (example_collab one [] 0 (inr "CERT"))
              example_state "certs: ..." one) as [_ Hone].
  { vm_compute. reflexivity. }
  { reflexivity. }
  destruct Hboth as [_ Hrun]; [by eexists|by eexists|].
  rewrite Hrun, Hone by (right; split; [reflexivity|by eexists]).
  split_and!; reflexivity.
Defined.

(** ** A pass of the reconciler *)

Section Pass_facts.
Context (c : collab).

Lemma for_each_emit {A} (f : A → event) (l : list A) s :
  for_each l (λ x, emit (f x)) s = (inr tt, s, f <$> l).
Proof.
  induction l as [|x l IH]; [done|]. cbn [for_each].
  rewrite bind_emit, IH. reflexivity.
Qed.

Lemma datetime_now_run s :
  datetime_now c s = (inr (clock c (tick s)), State (files s) (S (tick s)), []).
Proof. done. Qed.

Lemma check_cert_logs now by_name to_do cc s r s' ev :
  check_cert c now by_name to_do cc s = (r, s', ev) →
  Forall (λ e, is_log e = true) ev.
Proof.
  unfold check_cert. intros H.
  repeat inv_step c; repeat (apply Forall_app; split);
    repeat constructor.
Qed.

Lemma check_loop_logs now by_name to_do l s r s' ev :
  check_loop c now by_name to_do l s = (r, s', ev) →
  Forall (λ e, is_log e = true) ev.
Proof.
  revert to_do s r s' ev. induction l as [|cc l IH]; intros to_do s r s' ev; simpl.
  - intros [= <- <- <-]. constructor.
  - intros [(e & H & ->)|(q & s1 & ev1 & ev2 & H & H2 & ->)]%bind_inv.
    + by eapply check_cert_logs.
    + apply Forall_app. split; [by eapply check_cert_logs|by eapply IH].
Qed.

(** The loop raises as soon as it meets a covered certificate whose expiry
    does not parse, if it has not raised before. *)
Lemma check_loop_unparsable now by_name to_do l s cc rc e :
  cc ∈ l → by_name !! cc_name cc = Some rc →
  contains_sublist (subjectAlternativeNames rc) (cc_domains cc) = true →
  strptime c (expiresAt rc) = inl e →
  ∃ e' ev, check_loop c now by_name to_do l s = (inl e', s, ev).
Proof.
  intros Hin Hrc Hsub Hexp. revert to_do.
  induction l as [|cc' l IH]; intros to_do; [by apply elem_of_nil in Hin|].
  cbn [check_loop].
  destruct (check_cert c now by_name to_do cc' s) as [[[e'|q] s1] ev1] eqn:Hcc.
  - pose proof (check_cert_frame _ _ _ _ _ _ _ _ _ Hcc) as [-> _].
    rewrite (bind_err _ _ _ _ _ _ Hcc). eauto.
  - pose proof (check_cert_frame _ _ _ _ _ _ _ _ _ Hcc) as [-> _].
    rewrite (bind_ok _ _ _ _ _ _ Hcc).
    apply elem_of_cons in Hin as [<-|Hin].
    + exfalso. unfold check_cert in Hcc. rewrite Hrc, Hsub in Hcc.
      run_M_in Hcc. by rewrite Hexp in Hcc.
    + destruct (IH Hin q) as (e' & ev & ->). eauto.
Qed.

(** A loop that raises does so in the body of one certificate, after the
    bodies of the certificates before it have run; the certificates behind
    it are not looked at. *)
Lemma check_loop_raises now by_name to_do l s e s' ev :
  check_loop c now by_name to_do l s = (inl e, s', ev) →
  ∃ pre bad post q ev_pre ev_bad,
    l = pre ++ bad :: post ∧
    check_loop c now by_name to_do pre s = (inr q, s, ev_pre) ∧
    check_cert c now by_name q bad s = (inl e, s, ev_bad) ∧
    s' = s ∧ ev = ev_pre ++ ev_bad.
Proof.
  revert to_do ev. induction l as [|cc l IH]; intros to_do ev; [done|].
  cbn [check_loop].
  intros [(e' & H & [= <-])|(q & s1 & ev1 & ev2 & H & H2 & ->)]%bind_inv.
  - pose proof (check_cert_frame _ _ _ _ _ _ _ _ _ H) as [-> _].
    exists [], cc, l, to_do, [], ev. by split_and!.
  - pose proof (check_cert_frame _ _ _ _ _ _ _ _ _ H) as [-> _].
    apply IH in H2 as (pre & bad & post & q' & ev_pre & ev_bad
                       & -> & Hpre & Hbad & -> & ->).
    exists (cc :: pre), bad, post, q', (ev1 ++ ev_pre), ev_bad. split_and!; try done.
    + cbn [check_loop]. rewrite (bind_ok _ _ _ _ _ _ H). by rewrite Hpre.
    + by rewrite (assoc_L (++)).
Qed.

Lemma rancher_get_certs_inv s r s' ev :
  rancher_get_certs c s = (r, s', ev) →
  files s' = files s ∧ Forall (λ e, is_get e = true) ev.
Proof.
  unfold rancher_get_certs. intros H.
  repeat inv_step c; (split; [congruence|]);
    repeat (apply Forall_app; split); repeat constructor.
Qed.

(** [check_certs_queue] is the request to the store, the logs, the loop
    and the sort. *)
Lemma check_certs_queue_run config s observed s1 ev_get :
  rancher_get_certs c (State (files s) (S (tick s))) = (inr observed, s1, ev_get) →
  check_certs_queue c config s
  = (let '(r, s2, ev) :=
       check_loop c (clock c (tick s)) (index_certs observed) []
                  (certs config) s1 in
     match r with
     | inl e => (inl e, s2, queue_prelude config observed ev_get ++ ev)
     | inr to_do =>
         (list_sort to_do, s2, queue_prelude config observed ev_get ++ ev)
     end).
Proof.
  intros Hget. unfold check_certs_queue, queue_prelude, logger_info, logger_debug.
  rewrite (bind_ok _ _ _ _ _ _ (datetime_now_run s)).
  rewrite bind_emit, (bind_ok _ _ _ _ _ _ Hget).
  rewrite bind_emit, (bind_ok _ _ _ _ _ _ (for_each_emit _ _ _)).
  rewrite bind_emit, (bind_ok _ _ _ _ _ _ (for_each_emit _ _ _)).
  rewrite bind_emit. unfold bind, lift.
  destruct (check_loop _ _ _ _ _ _) as [[[e|to_do] s2] ev]; cbv beta iota.
  - f_equal. repeat (simpl; rewrite <-(assoc_L (++))). reflexivity.
  - f_equal. rewrite app_nil_r. repeat (simpl; rewrite <-(assoc_L (++))).
    reflexivity.
Qed.

(** Every tuple of [to_do] carries the link of the observed certificate of
    its name, or [None] when there is none. *)
Lemma check_cert_links now by_name to_do cc s q s' ev :
  Forall (λ it, item_link it = links_self <$> by_name !! item_name it) to_do →
  check_cert c now by_name to_do cc s = (inr q, s', ev) →
  Forall (λ it, item_link it = links_self <$> by_name !! item_name it) q.
Proof.
  intros Hall. unfold check_cert.
  destruct (by_name !! cc_name cc) as [rc|] eqn:Hrc.
  - destruct (contains_sublist _ _).
    + destruct (strptime c (expiresAt rc)) as [e|cert_exp]; run_M; [done|].
      destruct (_ <? 30)%Z; intros [= <- <- <-]; [|done].
      apply Forall_app. split; [done|]. constructor; [|done].
      unfold item_link, item_name. simpl. by rewrite Hrc.
    + run_M. intros [= <- <- <-]. apply Forall_app. split; [done|].
      constructor; [|done]. unfold item_link, item_name. simpl. by rewrite Hrc.
  - run_M. intros [= <- <- <-]. apply Forall_app. split; [done|].
    constructor; [|done]. unfold item_link, item_name. simpl. by rewrite Hrc.
Qed.

Lemma check_loop_links now by_name to_do l s q s' ev :
  Forall (λ it, item_link it = links_self <$> by_name !! item_name it) to_do →
  check_loop c now by_name to_do l s = (inr q, s', ev) →
  Forall (λ it, item_link it = links_self <$> by_name !! item_name it) q.
Proof.
  revert to_do s ev. induction l as [|cc l IH]; intros to_do s ev Hall; simpl.
  - by intros [= <- <- <-].
  - intros [(e & _ & [=])|(q1 & s1 & ev1 & ev2 & H1 & H2 & ->)]%bind_inv.
    eapply IH; [|exact H2]. by eapply check_cert_links.
Qed.

Lemma check_loop_links_agree now by_name l s q s' ev :
  check_loop c now by_name [] l s = (inr q, s', ev) → links_agree q.
Proof.
  intros H%check_loop_links; [|constructor].
  intros a b Ha Hb Hname. rewrite Forall_forall in H.
  rewrite (H a Ha), (H b Hb). by rewrite Hname.
Qed.

End Pass_facts.

Lemma StronglySorted_lookup_lt {A} (R : relation A) (l : list A) i j a b :
  StronglySorted R l → l !! i = Some a → l !! j = Some b → i < j → R a b.
Proof.
  intros Hs. revert i j. induction Hs as [|x l Hs IH Hx]; intros i j; [done|].
  destruct i as [|i], j as [|j]; simpl; try lia.
  - intros [= <-] Hb _. rewrite Forall_forall in Hx. apply Hx.
    by eapply list_elem_of_lookup_2.
  - intros Ha Hb Hlt. apply (IH i j); [done..|lia].
Qed.

(** Two keys with one urgency are ordered by name, then by domains. *)
Lemma key_le_tie (a b : work_item) :
  key_le a b → item_urgency a = item_urgency b →
  String.ltb (item_name a) (item_name b) = true ∨
  (item_name a = item_name b ∧
   (list_lt (item_domains a) (item_domains b) = true ∨
    item_domains a = item_domains b)).
Proof.
  destruct a as [[[u1 n1] d1] l1], b as [[[u2 n2] d2] l2].
  unfold key_le, item_key, item_urgency, item_name, item_domains; simpl.
  intros [[[Hu|[_ Hn]]|[[= _ ->] Hd]]|[= _ -> ->]] ->.
  - unfold lexico, Z_lexico in Hu. simpl in Hu. lia.
  - by left.
  - right. split; [done|]. left. by apply list_lt_lexico.
  - right. split; [done|]. by right.
Qed.

(** C8: when the store has answered and some desired certificate is
    matched and covered by a certificate whose expiry does not parse, the
    pass raises while the list [to_do] is built: [check_certs] ends with
    the error and the events of [check_certs_queue], which are logs and
    the request that read the store, and no file has changed; no work item
    is processed. *)
Theorem check_certs_unparsable_expiry (c : collab) config s observed s1 ev_get
    cc rc e :
  rancher_get_certs c (State (files s) (S (tick s))) = (inr observed, s1, ev_get) →
  cc ∈ certs config →
  index_certs observed !! cc_name cc = Some rc →
  contains_sublist (subjectAlternativeNames rc) (cc_domains cc) = true →
  strptime c (expiresAt rc) = inl e →
  ∃ e' ev,
    check_certs_queue c config s = (inl e', s1, ev) ∧
    check_certs c config s = (inl e', s1, ev) ∧
    files s1 = files s ∧
    Forall (λ e, is_log e = true ∨ is_get e = true) ev ∧
    ∃ pre bad post q ev_pre ev_bad,
      certs config = pre ++ bad :: post ∧
      check_loop c (clock c (tick s)) (index_certs observed) [] pre s1
      = (inr q, s1, ev_pre) ∧
      check_cert c (clock c (tick s)) (index_certs observed) q bad s1
      = (inl e', s1, ev_bad) ∧
      ev = queue_prelude config observed ev_get ++ ev_pre ++ ev_bad.
Proof.
  intros Hget Hin Hrc Hsub Hexp.
  destruct (check_loop_unparsable c (clock c (tick s)) (index_certs observed)
              [] (certs config) s1 cc rc e Hin Hrc Hsub Hexp) as (e' & evl & Hloop).
  pose proof (check_certs_queue_run c config s observed s1 ev_get Hget) as Hq.
  rewrite Hloop in Hq.
  exists e', (queue_prelude config observed ev_get ++ evl). split_and!.
  - exact Hq.
  - unfold check_certs. by rewrite (bind_err _ _ _ _ _ _ Hq).
  - by apply rancher_get_certs_inv in Hget as [-> _].
  - apply rancher_get_certs_inv in Hget as [_ Hg].
    apply check_loop_logs in Hloop. unfold queue_prelude.
    repeat (apply Forall_app; split); try apply Forall_fmap;
      try (eapply Forall_impl; [eassumption|]; simpl; by auto);
      try (apply Forall_forall; intros; simpl; by auto);
      repeat constructor; simpl; auto.
  - apply check_loop_raises in Hloop
      as (pre & bad & post & q & ev_pre & ev_bad & ? & ? & ? & _ & ->).
    by exists pre, bad, post, q, ev_pre, ev_bad.
Qed.

(** The certificate [site] is healthy; [broken], behind it in the
    configuration, carries an expiry that does not parse. *)
Lemma check_certs_unparsable_expiry_witness :
  let cfg := example_config None (Some "https://acme/dir")
               [CertConfig "new" ["n.com"]; CertConfig "broken" ["b.com"]] in
  let observed :=
    [RancherCert "broken" ["b.com"] "next year" "http://rancher/v1/certificates/7"] in
  let c := example_collab cfg observed 0 (inr "CERT") in
  ∃ e' ev,
    check_certs c cfg example_state
    = (inl e', State (files example_state) 2, ev) ∧
    Forall (λ e, is_log e = true ∨ is_get e = true) ev.
Proof.
  intros cfg observed c.
  destruct (check_certs_unparsable_expiry c cfg example_state observed
              (State (files example_state) 2)
              [HttpRequest (Request GET "http://rancher/v1/certificates" None []
                                    ("access", "secret"))]
              (CertConfig "broken" ["b.com"])
              (RancherCert "broken" ["b.com"] "next year"
                           "http://rancher/v1/certificates/7")
              (ValueError "time data 'next year' does not match format '%a %b %d %H:%M:%S %Z %Y'"))
    as (e' & ev & _ & Hrun & _ & Hev & _).
  - vm_compute. reflexivity.
  - apply list_elem_of_In. simpl. auto.
  - vm_compute. reflexivity.
  - vm_compute. reflexivity.
  - vm_compute. reflexivity.
  - exists e', ev. split; [exact Hrun|exact Hev].
Defined.

(** C2, as the code has it: when the store has answered and the loop has
    built [to_do], [check_certs_queue] returns a permutation of [to_do]
    that is ascending by urgency, and in which two tuples of one urgency
    stand in the order of their names, and of their domain lists when the
    names are equal; the place in the configuration plays no part. *)
Theorem check_certs_queue_sorted (c : collab) config s observed s1 ev_get
    to_do ev_loop :
  rancher_get_certs c (State (files s) (S (tick s))) = (inr observed, s1, ev_get) →
  check_loop c (clock c (tick s)) (index_certs observed) [] (certs config) s1
  = (inr to_do, s1, ev_loop) →
  ∃ q,
    check_certs_queue c config s
    = (inr q, s1, queue_prelude config observed ev_get ++ ev_loop) ∧
    q ≡ₚ to_do ∧
    StronglySorted Z.le (item_urgency <$> q) ∧
    ∀ i j a b,
      q !! i = Some a → q !! j = Some b → i < j →
      item_urgency a = item_urgency b →
      String.ltb (item_name a) (item_name b) = true ∨
      (item_name a = item_name b ∧
       (list_lt (item_domains a) (item_domains b) = true ∨ a = b)).
Proof.
  intros Hget Hloop.
  pose proof (check_loop_links_agree c _ _ _ _ _ _ _ Hloop) as Hagree.
  destruct (list_sort_total to_do Hagree) as [q Hsort].
  destruct (list_sort_ok to_do q Hsort) as [Hperm Hsorted].
  exists q. split_and!.
  - rewrite (check_certs_queue_run c config s observed s1 ev_get Hget), Hloop.
    by rewrite Hsort.
  - done.
  - eapply StronglySorted_fmap; [|exact Hsorted]. apply key_le_urgency.
  - intros i j a b Ha Hb Hlt Hurg.
    pose proof (StronglySorted_lookup_lt _ _ _ _ _ _ Hsorted Ha Hb Hlt) as Hle.
    destruct (key_le_tie a b Hle Hurg) as [?|[Hname [?|Hdom]]]; auto.
    right. split; [done|]. right.
    assert (item_link a = item_link b) as Hlink.
    { apply Hagree; [| |done]; rewrite <-Hperm; by eapply list_elem_of_lookup_2. }
    destruct a as [[[u1 n1] d1] l1], b as [[[u2 n2] d2] l2].
    unfold item_urgency, item_name, item_domains, item_link in *.
    simpl in *. congruence.
Qed.

(** Scenario C of the specification, seen at noon: [site] has nine whole
    days left and [other] has four, so [other] comes first. *)
Lemma check_certs_queue_sorted_witness :
  let cfg := example_config None (Some "https://acme/dir")
               [CertConfig "site" ["a.com"]; CertConfig "other" ["o.com"]] in
  let observed :=
    [RancherCert "site" ["a.com"] "Sun Jan 11 00:00:00 UTC 1970" "http://rancher/v1/certificates/1";
     RancherCert "other" ["o.com"] "Tue Jan 06 00:00:00 UTC 1970" "http://rancher/v1/certificates/2"] in
  let c := example_collab cfg observed 0 (inr "CERT") in
  (check_certs_queue c cfg example_state).1.1
  = inr [(4%Z, "other", ["o.com"], Some "http://rancher/v1/certificates/2");
         (9%Z, "site", ["a.com"], Some "http://rancher/v1/certificates/1")].
Proof.
  intros cfg observed c.
  destruct (check_certs_queue_sorted c cfg example_state observed
              (State (files example_state) 2)
              [HttpRequest (Request GET "http://rancher/v1/certificates" None []
                                    ("access", "secret"))]
              [(9%Z, "site", ["a.com"], Some "http://rancher/v1/certificates/1");
               (4%Z, "other", ["o.com"], Some "http://rancher/v1/certificates/2")]
              [Log INFO "- Cert site expires in 9 days";
               Log INFO "- Cert other expires in 4 days"])
    as (q & Hrun & _).
  - vm_compute. reflexivity.
  - vm_compute. reflexivity.
  - pose proof Hrun as Hq. vm_compute in Hq. injection Hq as <-.
    rewrite Hrun. reflexivity.
Defined.

(** C2 fails on the ties: [b] stands before [a] in the configuration, both
    are absent from the store and get urgency 0, and [a] is first in the
    queue. *)
Lemma check_certs_queue_sorted_counterexample :
  let cfg := example_config None (Some "https://acme/dir")
               [CertConfig "b" ["b.com"]; CertConfig "a" ["a.com"]] in
  let c := example_collab cfg [] 0 (inr "CERT") in
  cc_name <$> certs cfg = ["b"; "a"] ∧
  (check_certs_queue c cfg example_state).1.1
  = inr [(0%Z, "a", ["a.com"], None); (0%Z, "b", ["b.com"], None)].
Proof. cbv zeta. split; vm_compute; reflexivity. Qed.

(** * Further properties *)

(** ** The store client *)

(** X1: [rancher_get_certs] sends nothing when one of the three
    credentials is missing from the environment and raises [KeyError];
    otherwise it sends one [GET] to [CATTLE_URL/certificates] and returns
    the data of the answer when the status is 200, and raises an
    [Exception] that carries the status and the body for every other
    status. *)
Theorem rancher_get_certs_outcomes (c : collab) (s : state) :
  (environ c !! "CATTLE_URL" = None ∨
   environ c !! "CATTLE_ACCESS_KEY" = None ∨
   environ c !! "CATTLE_SECRET_KEY" = None →
   ∃ k, rancher_get_certs c s = (inl (KeyError k), s, [])) ∧
  (∀ url access secret r,
     environ c !! "CATTLE_URL" = Some url →
     environ c !! "CATTLE_ACCESS_KEY" = Some access →
     environ c !! "CATTLE_SECRET_KEY" = Some secret →
     let req := Request GET (url +:+ "/certificates") None [] (access, secret) in
     http c (tick s) req = inr r →
     rancher_get_certs c s
     = (if bool_decide (status_code r = 200%Z) then json_data r
        else inl (Exception ("Rancher returned non-200 code: "
                             +:+ str_int (status_code r) +:+ " - " +:+ text r)),
        State (files s) (S (tick s)), [HttpRequest req])).
Proof.
  split.
  - intros Hmiss. unfold rancher_get_certs, os_environ.
    destruct (environ c !! "CATTLE_URL") as [url|]; [|by eexists].
    destruct (environ c !! "CATTLE_ACCESS_KEY") as [access|]; [|by eexists].
    destruct (environ c !! "CATTLE_SECRET_KEY") as [secret|]; [|by eexists].
    by destruct Hmiss as [?|[?|?]].
  - intros url access secret r Hurl Hacc Hsec req Hhttp.
    unfold rancher_get_certs, os_environ, requests. rewrite Hurl, Hacc, Hsec.
    run_M. fold req. rewrite Hhttp. cbv beta iota.
    case_bool_decide as Hst.
    + rewrite Hst. simpl. by destruct (json_data r).
    + apply Z.eqb_neq in Hst. by rewrite Hst.
Qed.

(** The store of the example world, and a store that is down. *)
Lemma rancher_get_certs_outcomes_witness :
  let up := example_collab (example_config None None []) [] 0 (inr "CERT") in
  let down := with_http up (λ _ _, inr (Response 503 "Service Unavailable" (inr []))) in
  let unset := with_environ up ∅ in
  rancher_get_certs up example_state
  = (inr [], State (files example_state) 1,
     [HttpRequest (Request GET "http://rancher/v1/certificates" None []
                           ("access", "secret"))]) ∧
  (rancher_get_certs down example_state).1.1
  = inl (Exception "Rancher returned non-200 code: 503 - Service Unavailable") ∧
  ∃ k, rancher_get_certs unset example_state = (inl (KeyError k), example_state, []).
Proof.
  intros up down unset. split_and!.
  - destruct (rancher_get_certs_outcomes up example_state) as [_ H].
    rewrite (H "http://rancher/v1" "access" "secret" (Response 200 "" (inr [])));
      reflexivity.
  - destruct (rancher_get_certs_outcomes down example_state) as [_ H].
    rewrite (H "http://rancher/v1" "access" "secret"
               (Response 503 "Service Unavailable" (inr []))); reflexivity.
  - destruct (rancher_get_certs_outcomes unset example_state) as [H _].
    apply H. left. reflexivity.
Defined.

(** X2: [rancher_save_cert] creates when it is given no link and updates
    otherwise: without a link it sends one [POST] to
    [CATTLE_URL/certificates] whose body holds the key, the certificate and
    the name; with a link it sends one [PUT] to the link whose body holds
    the key and the certificate only. It returns when the status is 200 or
    201 and raises for every other status, 204 included. *)
Theorem rancher_save_cert_outcomes (c : collab) (s : state)
    (name private_key cert : string) (link : option string)
    (url access secret : string) (r : response) :
  environ c !! "CATTLE_URL" = Some url →
  environ c !! "CATTLE_ACCESS_KEY" = Some access →
  environ c !! "CATTLE_SECRET_KEY" = Some secret →
  let req :=
    match link with
    | None =>
        Request POST (url +:+ "/certificates")
                (Some [("key", private_key); ("cert", cert); ("name", name)])
                [("Content-Type", "application/json")] (access, secret)
    | Some l =>
        Request PUT l (Some [("key", private_key); ("cert", cert)])
                [("Content-Type", "application/json")] (access, secret)
    end in
  http c (tick s) req = inr r →
  rancher_save_cert c name private_key cert link s
  = (if bool_decide (status_code r = 200%Z ∨ status_code r = 201%Z) then inr tt
     else inl (Exception ("Rancher returned non-200 code: "
                          +:+ str_int (status_code r) +:+ " - " +:+ text r)),
     State (files s) (S (tick s)), [HttpRequest req]).
Proof.
  intros Hurl Hacc Hsec req Hhttp.
  unfold rancher_save_cert, os_environ, requests.
  destruct link as [l|]; rewrite ?Hurl, Hacc, Hsec; run_M;
    fold json_headers in *; change (Request _ _ _ _ _) with req;
    rewrite Hhttp; cbv beta iota.
  all: case_bool_decide as Hst.
  all: try (rewrite bool_decide_eq_true_2 by (set_unfold; naive_solver); done).
  all: rewrite bool_decide_eq_false_2 by (set_unfold; naive_solver); done.
Qed.

(** Scenario A and B of the specification at the store, and a store that
    answers 204. *)
Lemma rancher_save_cert_outcomes_witness :
  let up := example_collab (example_config None None []) [] 0 (inr "CERT") in
  let no_content := with_http up (λ _ _, inr (Response 204 "" (inr []))) in
  rancher_save_cert up "site" "KEY" "CERT" None example_state
  = (inr tt, State (files example_state) 1,
     [HttpRequest (Request POST "http://rancher/v1/certificates"
                           (Some [("key", "KEY"); ("cert", "CERT"); ("name", "site")])
                           [("Content-Type", "application/json")]
                           ("access", "secret"))]) ∧
  rancher_save_cert up "site" "KEY" "CERT" (Some "http://rancher/v1/certificates/1")
                    example_state
  = (inr tt, State (files example_state) 1,
     [HttpRequest (Request PUT "http://rancher/v1/certificates/1"
                           (Some [("key", "KEY"); ("cert", "CERT")])
                           [("Content-Type", "application/json")]
                           ("access", "secret"))]) ∧
  (rancher_save_cert no_content "site" "KEY" "CERT" None example_state).1.1
  = inl (Exception "Rancher returned non-200 code: 204 - ").
Proof.
  intros up no_content. split_and!.
  - rewrite (rancher_save_cert_outcomes up example_state "site" "KEY" "CERT" None
               "http://rancher/v1" "access" "secret" (Response 201 "" (inr [])));
      reflexivity.
  - rewrite (rancher_save_cert_outcomes up example_state "site" "KEY" "CERT"
               (Some "http://rancher/v1/certificates/1")
               "http://rancher/v1" "access" "secret" (Response 200 "" (inr [])));
      reflexivity.
  - rewrite (rancher_save_cert_outcomes no_content example_state "site" "KEY" "CERT"
               None "http://rancher/v1" "access" "secret" (Response 204 "" (inr [])));
      reflexivity.
Defined.

(** ** The crypto toolkit *)

(** X3: [openssl] runs one process, [openssl] followed by its arguments.
    When the process exits with status 0 the call returns its output; with
    any other status it raises [IOError] with the text of the error
    stream, and the file the process may have written stays where it is. *)
Theorem openssl_outcomes (c : collab) (args : list string) (s : state)
    (p : proc_result) :
  popen c (tick s) ("openssl" :: args) (files s) = inr p →
  let fs := match out_path ("openssl" :: args), out_file p with
            | Some path, Some content => <[path := content]> (files s)
            | _, _ => files s
            end in
  openssl c args s
  = (if bool_decide (returncode p = 0%Z) then inr (stdout p)
     else inl (IOError ("OpenSSL Error: " +:+ stderr p)),
     State fs (S (tick s)), [Subprocess ("openssl" :: args)]).
Proof.
  intros Hp. unfold openssl, run_process. run_M. rewrite Hp.
  destruct (out_path _) as [path|], (out_file p) as [content|]; cbn;
    case_bool_decide as Hrc;
    try (rewrite Hrc; reflexivity);
    apply Z.eqb_neq in Hrc; by rewrite Hrc.
Qed.

(** A key generation that succeeds and a request that exits with 1. *)
Lemma openssl_outcomes_witness :
  let c := example_collab (example_config None None []) [] 1 (inr "CERT") in
  openssl c ["genrsa"; "-out"; "/tmp/k"; "2048"] example_state
  = (inr "", State (<["/tmp/k" := "PEM"]> (files example_state)) 1,
     [Subprocess ["openssl"; "genrsa"; "-out"; "/tmp/k"; "2048"]]) ∧
  openssl c ["req"; "-new"; "-key"; "/tmp/k"; "-out"; "/tmp/c"] example_state
  = (inl (IOError "OpenSSL Error: req: cannot build the request"),
     State (files example_state) 1,
     [Subprocess ["openssl"; "req"; "-new"; "-key"; "/tmp/k"; "-out"; "/tmp/c"]]).
Proof.
  intros c. split.
  - rewrite (openssl_outcomes c _ example_state (ProcResult 0 "" "" (Some "PEM")));
      reflexivity.
  - rewrite (openssl_outcomes c _ example_state
               (ProcResult 1 "" "req: cannot build the request" None));
      reflexivity.
Defined.

(** ** The reconciler *)

(** X4: the dictionary of the observed certificates is keyed by their
    trimmed names and the last certificate with a name wins: a name is
    bound to [rc] exactly when [rc] is observed under that name, once
    trimmed, and no certificate behind it has the name; it is unbound
    exactly when no observed certificate has it. *)
Theorem index_certs_last_wins (observed : list rancher_cert) (name : string) :
  (∀ rc, index_certs observed !! name = Some rc ↔
         ∃ l1 l2, observed = l1 ++ rc :: l2 ∧ strip (rc_name rc) = name ∧
                  ∀ rc', rc' ∈ l2 → strip (rc_name rc') ≠ name) ∧
  (index_certs observed !! name = None ↔
   ∀ rc, rc ∈ observed → strip (rc_name rc) ≠ name).
Proof.
  split; [|apply index_certs_None].
  intros rc. split.
  - induction observed as [|x l IH] using rev_ind; [done|].
    rewrite index_certs_snoc, lookup_insert_Some.
    intros [[Hx ->]|[Hx (l1 & l2 & -> & Hname & Hlast)%IH]].
    + exists l, []. split_and!; [done..|]. by intros rc' ?%elem_of_nil.
    + exists l1, (l2 ++ [x]). split_and!; [by rewrite <-(assoc_L (++))|done|].
      intros rc' [?| ->%list_elem_of_singleton]%elem_of_app; auto.
  - intros (l1 & l2 & -> & Hname & Hlast).
    induction l2 as [|x l2 IH] using rev_ind.
    + rewrite index_certs_snoc, Hname. apply lookup_insert_eq.
    + rewrite app_comm_cons, (assoc_L (++)), index_certs_snoc.
      rewrite lookup_insert_ne; [|apply Hlast; set_solver].
      apply IH. intros rc' ?. apply Hlast. set_solver.
Qed.

(** Two observed certificates named [site], the first with a blank. *)
Lemma index_certs_last_wins_witness :
  let old := RancherCert " site" ["a.com"] "Sun Jan 11 00:00:00 UTC 1970" "link/1" in
  let new := RancherCert "site" ["a.com"; "b.com"] "Sat Apr 11 00:00:00 UTC 1970" "link/2" in
  index_certs [old; new] !! "site" = Some new ∧
  index_certs [old; new] !! "other" = None.
Proof.
  intros old new.
  destruct (index_certs_last_wins [old; new] "site") as [Hsome _].
  destruct (index_certs_last_wins [old; new] "other") as [_ Hnone].
  split.
  - apply Hsome. exists [old], []. split_and!; [reflexivity..|].
    intros rc' Hin. by apply elem_of_nil in Hin.
  - apply Hnone. intros rc' Hin.
    apply elem_of_cons in Hin as [->|Hin]; [vm_compute; discriminate|].
    apply elem_of_cons in Hin as [->|Hin]; [vm_compute; discriminate|].
    by apply elem_of_nil in Hin.
Defined.

(** X5: when the request to the store fails, [check_certs] ends with that
    error after its first log line and the request: nothing is classified,
    no renewal is started and no file has changed. *)
Theorem check_certs_store_failure (c : collab) (config : config) (s : state)
    (e : exn) (s1 : state) (ev_get : list event) :
  rancher_get_certs c (State (files s) (S (tick s))) = (inl e, s1, ev_get) →
  check_certs c config s
  = (inl e, s1, Log INFO "Getting certificates from Rancher..." :: ev_get) ∧
  files s1 = files s ∧
  Forall (λ e, is_get e = true) ev_get.
Proof.
  intros Hget. split_and!.
  - unfold check_certs, check_certs_queue, logger_info.
    rewrite !bind_assoc.
    rewrite (bind_ok _ _ _ _ _ _ (datetime_now_run c s)).
    rewrite bind_assoc, bind_emit, bind_assoc.
    by rewrite (bind_err _ _ _ _ _ _ Hget).
  - by apply rancher_get_certs_inv in Hget as [-> _].
  - by apply rancher_get_certs_inv in Hget as [_ ?].
Qed.

(** A store that answers 503. *)
Lemma check_certs_store_failure_witness :
  let cfg := example_config None (Some "https://acme/dir") [CertConfig "site" ["a.com"]] in
  let down := with_http (example_collab cfg [] 0 (inr "CERT"))
                (λ _ _, inr (Response 503 "Service Unavailable" (inr []))) in
  check_certs down cfg example_state
  = (inl (Exception "Rancher returned non-200 code: 503 - Service Unavailable"),
     State (files example_state) 2,
     [Log INFO "Getting certificates from Rancher...";
      HttpRequest (Request GET "http://rancher/v1/certificates" None []
                           ("access", "secret"))]).
Proof.
  intros cfg down.
  apply (check_certs_store_failure down cfg example_state).
  vm_compute. reflexivity.
Defined.

Lemma for_each_app {A} (l1 l2 : list A) (body : A → M unit) s :
  for_each (l1 ++ l2) body s
  = bind (for_each l1 body) (λ _, for_each l2 body) s.
Proof.
  revert s. induction l1 as [|x l1 IH]; intros s; simpl.
  - unfold bind, ret. by destruct (for_each l2 body s) as [[??]?].
  - rewrite bind_assoc. apply bind_ext. intros _ s1. apply IH.
Qed.

(** X6: the renewals of a pass are all or nothing from the first failure
    on: when the renewals of the items before [it] succeed and the renewal
    of [it] raises, [check_certs] raises that error, and its events are
    those of the queue, of the renewals before [it] and of the renewal of
    [it]; the items behind [it] are not renewed and no count is
    returned. *)
Theorem check_certs_first_failure (c : collab) (config : config) (s : state)
    (pre post : list work_item) (it : work_item)
    (s1 s2 s3 : state) (ev_queue ev_pre ev_it : list event) (e : exn) :
  check_certs_queue c config s = (inr (pre ++ it :: post), s1, ev_queue) →
  for_each pre (λ '(_, name, domains, link),
                  make_cert c config name domains link) s1
  = (inr tt, s2, ev_pre) →
  make_cert c config (item_name it) (item_domains it) (item_link it) s2
  = (inl e, s3, ev_it) →
  check_certs c config s = (inl e, s3, ev_queue ++ ev_pre ++ ev_it).
Proof.
  intros Hq Hpre Hit.
  assert (for_each (pre ++ it :: post)
            (λ '(_, name, domains, link), make_cert c config name domains link) s1
          = (inl e, s3, ev_pre ++ ev_it)) as Hfe.
  { rewrite for_each_app, (bind_ok _ _ _ _ _ _ Hpre). cbn [for_each].
    destruct it as [[[u name] domains] link].
    unfold item_name, item_domains, item_link in Hit. simpl in Hit.
    by rewrite (bind_err _ _ _ _ _ _ Hit). }
  unfold check_certs.
  rewrite (bind_ok _ _ _ _ _ _ Hq), (bind_err _ _ _ _ _ _ Hfe). reflexivity.
Qed.

(** Two absent certificates; the signing of the first one fails. *)
Lemma check_certs_first_failure_witness :
  let cfg := example_config None (Some "https://acme/dir")
               [CertConfig "a" ["a.com"]; CertConfig "b" ["b.com"]] in
  let c := example_collab cfg [] 0 (inl (ValueError "Challenge did not pass")) in
  (check_certs c cfg example_state).1.1
  = inl (ValueError "Challenge did not pass") ∧
  Log INFO "Creating certificate a for domains: a.com"
  ∈ (check_certs c cfg example_state).2 ∧
  Log INFO "Creating certificate b for domains: b.com"
  ∉ (check_certs c cfg example_state).2.
Proof.
  intros cfg c.
  pose proof (check_certs_first_failure c cfg example_state []
    [(0%Z, "b", ["b.com"], None)] (0%Z, "a", ["a.com"], None)
    (check_certs_queue c cfg example_state).1.2
    (check_certs_queue c cfg example_state).1.2
    (make_cert c cfg "a" ["a.com"] None (check_certs_queue c cfg example_state).1.2).1.2
    (check_certs_queue c cfg example_state).2 []
    (make_cert c cfg "a" ["a.com"] None (check_certs_queue c cfg example_state).1.2).2
    (ValueError "Challenge did not pass")) as Hrun.
  rewrite Hrun; [|vm_compute; reflexivity..].
  split_and!.
  - reflexivity.
  - apply list_elem_of_In. vm_compute.
    repeat first [left; reflexivity | right].
  - intros Hin. apply list_elem_of_In in Hin. vm_compute in Hin.
    repeat (destruct Hin as [Hin|Hin]; [discriminate Hin|]). exact Hin.
Defined.

(** ** The work queue *)

Section Queue_facts.
Context (c : collab).

(** A queue that was returned was built from an answer of the store by
    the loop and the sort. *)
Lemma check_certs_queue_inv config s q s' ev :
  check_certs_queue c config s = (inr q, s', ev) →
  ∃ observed ev_get to_do ev_loop,
    rancher_get_certs c (State (files s) (S (tick s)))
    = (inr observed, s', ev_get) ∧
    check_loop c (clock c (tick s)) (index_certs observed) [] (certs config) s'
    = (inr to_do, s', ev_loop) ∧
    list_sort to_do = inr q ∧
    ev = queue_prelude config observed ev_get ++ ev_loop.
Proof.
  destruct (rancher_get_certs c (State (files s) (S (tick s))))
    as [[[e|observed] s1] ev_get] eqn:Hget.
  - unfold check_certs_queue, logger_info.
    rewrite (bind_ok _ _ _ _ _ _ (datetime_now_run c s)), bind_emit,
      (bind_err _ _ _ _ _ _ Hget). done.
  - rewrite (check_certs_queue_run c config s observed s1 ev_get Hget).
    destruct (check_loop _ _ _ _ _ _) as [[[e|to_do] s2] ev_loop] eqn:Hloop;
      [done|].
    pose proof (check_loop_frame _ _ _ _ _ _ _ _ _ Hloop) as [-> _].
    intros [= Hsort <- <-]. by exists observed, ev_get, to_do, ev_loop.
Qed.

Lemma check_cert_items now by_name to_do cc s q s' ev :
  check_cert c now by_name to_do cc s = (inr q, s', ev) →
  ∃ d, q = to_do ++ d ∧ length d ≤ 1 ∧
       Forall (λ it, (item_urgency it < 30)%Z ∧ item_name it = cc_name cc ∧
                     item_domains it = cc_domains cc) d.
Proof.
  unfold check_cert. destruct (by_name !! cc_name cc) as [rc|].
  - destruct (contains_sublist _ _).
    + destruct (strptime c (expiresAt rc)) as [e|cert_exp]; run_M; [done|].
      destruct (_ <? 30)%Z eqn:Hlt; intros [= <- <- <-].
      * eexists [_]. split_and!; [done|simpl; lia|].
        constructor; [|done]. split_and!; [|done..].
        unfold item_urgency. simpl. lia.
      * exists []. by rewrite app_nil_r; split_and!; [|simpl; lia|].
    + run_M. intros [= <- <- <-]. eexists [_]. split_and!; [done|simpl; lia|].
      by constructor.
  - run_M. intros [= <- <- <-]. eexists [_]. split_and!; [done|simpl; lia|].
    by constructor.
Qed.

Lemma check_loop_items now by_name to_do l s q s' ev :
  check_loop c now by_name to_do l s = (inr q, s', ev) →
  ∃ d, q = to_do ++ d ∧ length d ≤ length l ∧
       Forall (λ it, (item_urgency it < 30)%Z ∧
                     ∃ cc, cc ∈ l ∧ item_name it = cc_name cc ∧
                           item_domains it = cc_domains cc) d.
Proof.
  revert to_do s ev. induction l as [|cc l IH]; intros to_do s ev; simpl.
  - intros [= <- <- <-]. exists []. by rewrite app_nil_r.
  - intros [(e & _ & [=])|(q1 & s1 & ev1 & ev2 & H1 & H2 & ->)]%bind_inv.
    apply check_cert_items in H1 as (d1 & -> & Hlen1 & Hall1).
    apply IH in H2 as (d2 & -> & Hlen2 & Hall2).
    exists (d1 ++ d2). rewrite (assoc_L (++)), length_app.
    split_and!; [done|lia|]. apply Forall_app. split.
    + eapply Forall_impl; [exact Hall1|]. intros it (? & ? & ?).
      split; [done|]. exists cc. split_and!; [left|done..].
    + eapply Forall_impl; [exact Hall2|]. intros it (? & cc' & ? & ? & ?).
      split; [done|]. exists cc'. split_and!; [by right|done..].
Qed.

(** The loop over a rearranged list of desired certificates succeeds as
    well, and what it builds is a rearrangement. *)
Lemma check_loop_perm now by_name l l' :
  l ≡ₚ l' →
  ∀ to_do s q s' ev,
    check_loop c now by_name to_do l s = (inr q, s', ev) →
    ∃ q' ev', check_loop c now by_name to_do l' s = (inr q', s, ev') ∧ q' ≡ₚ q.
Proof.
  induction 1 as [|x l l' _ IH|x y l|l l' l'' _ IH1 _ IH2];
    intros to_do s q s' ev.
  - intros Hrun. pose proof (check_loop_frame _ _ _ _ _ _ _ _ _ Hrun) as [-> _].
    eauto.
  - cbn [check_loop].
    intros [(e & _ & [=])|(q1 & s1 & ev1 & ev2 & H1 & H2 & ->)]%bind_inv.
    pose proof (check_cert_frame _ _ _ _ _ _ _ _ _ H1) as [-> _].
    apply IH in H2 as (q' & ev' & H2 & Hperm).
    exists q', (ev1 ++ ev'). rewrite (bind_ok _ _ _ _ _ _ H1), H2. done.
  - cbn [check_loop].
    intros [(e & _ & [=])|(q1 & s1 & ev1 & ev' & H1 & H2 & ->)]%bind_inv.
    apply bind_inv in H2 as [(e & _ & [=])|(q2 & s2 & ev2 & ev3 & H2 & H3 & ->)].
    apply check_cert_frame in H1 as (-> & [(e & [=] & _)|(dy & [= ->] & _ & Hy)]).
    apply check_cert_frame in H2 as (-> & [(e & [=] & _)|(dx & [= ->] & _ & Hx)]).
    apply check_loop_frame in H3 as (-> & [(e & [=] & _)|(d & [= ->] & Hl)]).
    exists (((to_do ++ dx) ++ dy) ++ d), (ev2 ++ ev1 ++ ev3). split.
    + rewrite (bind_ok _ _ _ _ _ _ (Hx to_do s)).
      rewrite (bind_ok _ _ _ _ _ _ (Hy (to_do ++ dx) s)).
      by rewrite Hl.
    + rewrite <-!(assoc_L (++)). do 1 f_equiv.
      rewrite !(assoc_L (++)). f_equiv. apply Permutation_app_comm.
  - intros Hrun. apply IH1 in Hrun as (q' & ev' & Hrun & Hperm).
    apply IH2 in Hrun as (q'' & ev'' & Hrun & Hperm').
    exists q'', ev''. split; [done|]. by rewrite Hperm'.
Qed.

End Queue_facts.



(** X8: the queue does not depend on the order in which the configuration
    lists the desired certificates, nor on any other key of the
    configuration: two configurations whose lists of certificates are
    rearrangements of one another give the same queue. *)
Theorem check_certs_queue_config_order (c : collab) (config config' : config)
    (s : state) (q : list work_item) (s' : state) (ev : list event) :
  certs config ≡ₚ certs config' →
  check_certs_queue c config s = (inr q, s', ev) →
  ∃ ev', check_certs_queue c config' s = (inr q, s', ev').
Proof.
  intros Hcerts
    (observed & ev_get & to_do & ev_loop & Hget & Hloop & Hsort & ->)
    %check_certs_queue_inv.
  destruct (check_loop_perm c _ _ _ _ Hcerts _ _ _ _ _ Hloop)
    as (to_do' & ev' & Hloop' & Hperm).
  apply list_sort_ok in Hsort as [Hq Hsorted].
  rewrite (check_certs_queue_run c config' s observed s' ev_get Hget), Hloop'.
  rewrite (list_sort_unique to_do' q); [by eexists| |by rewrite Hq, Hperm|done].
  by eapply check_loop_links_agree.
Qed.

(** Scenario C of the specification with its two certificates listed in
    either order. *)
Lemma check_certs_queue_config_order_witness :
  let site := CertConfig "site" ["a.com"] in
  let other := CertConfig "other" ["b.com"] in
  let cfg := example_config None (Some "https://acme/dir") [site; other] in
  let cfg' := example_config None (Some "https://acme/dir") [other; site] in
  let c := example_collab cfg
             [RancherCert "site" ["a.com"] "Sun Jan 11 00:00:00 UTC 1970" "link/1";
              RancherCert "other" ["b.com"] "Tue Jan 06 00:00:00 UTC 1970" "link/2"]
             0 (inr "CERT") in
  (check_certs_queue c cfg' example_state).1.1
  = (check_certs_queue c cfg example_state).1.1 ∧
  (check_certs_queue c cfg example_state).1.1
  = inr [(4%Z, "other", ["b.com"], Some "link/2");
         (9%Z, "site", ["a.com"], Some "link/1")].
Proof.
  intros site other cfg cfg' c.
  destruct (check_certs_queue c cfg example_state) as [[r s'] ev] eqn:Hrun.
  assert (r = inr [(4%Z, "other", ["b.com"], Some "link/2");
                   (9%Z, "site", ["a.com"], Some "link/1")])
    as -> by (vm_compute in Hrun; congruence).
  destruct (check_certs_queue_config_order c cfg cfg' example_state _ s' ev
              (perm_swap other site [] : certs cfg ≡ₚ certs cfg') Hrun)
    as [ev' ->].
  split; reflexivity.
Defined.

(** ** A renewal that succeeds *)

Section Renewal_facts.
Context (c : collab).

Lemma acme_tiny_get_crt_run account_key csr_file acme_dir kw s :
  acme_tiny_get_crt c account_key csr_file acme_dir kw s
  = (get_crt c (tick s) account_key csr_file (files s) acme_dir kw,
     State (files s) (S (tick s)),
     [AcmeGetCrt account_key csr_file acme_dir kw]).
Proof. unfold acme_tiny_get_crt. run_M. by destruct (get_crt _ _ _ _ _ _ _). Qed.

Lemma rancher_save_cert_ok_inv name private_key cert link s s' ev :
  rancher_save_cert c name private_key cert link s = (inr tt, s', ev) →
  ∃ req, ev = [HttpRequest req] ∧
    req_method req = (if link is None then POST else PUT) ∧
    req_data req = Some ([("key", private_key); ("cert", cert)]
                         ++ if link is None then [("name", name)] else []) ∧
    (∀ l, link = Some l → req_url req = l).
Proof.
  unfold rancher_save_cert. intros H.
  repeat inv_step c; eexists; split_and!; try reflexivity;
    intros l ?; by simplify_eq/=.
Qed.

(** The events of a renewal that succeeds, stage by stage. *)
Lemma make_cert_ok_inv cfg name domains link s s' ev :
  make_cert c cfg name domains link s = (inr tt, s', ev) →
  let key := "/tmp/" +:+ uuid4_hex c (tick s) in
  let csr := "/tmp/" +:+ uuid4_hex c (S (tick s)) in
  ∃ ev_csr kw req private_key cert n fs,
    ev = [Log INFO ("Creating certificate " +:+ name +:+ " for domains: "
                    +:+ join ", " domains);
          Log DEBUG ("Generating private key to " +:+ key +:+ "...");
          Subprocess ["openssl"; "genrsa"; "-out"; key;
                      str_int (key_length cfg)];
          FileRead key;
          Log DEBUG ("Generating CSR to " +:+ csr +:+ "...")]
         ++ ev_csr
         ++ [Log DEBUG "Deleting private key file..."; FileRemove key;
             Log INFO "Signing CSR using acme_tiny...";
             AcmeGetCrt (account_key cfg) csr (acme_dir cfg) kw;
             Log DEBUG "Deleting CSR file..."; FileRemove csr;
             Log INFO "Saving cert in Rancher..."; HttpRequest req] ∧
    existsb is_http ev_csr = false ∧ existsb is_acme ev_csr = false ∧
    (∀ url, ca cfg = Some url → kw = KwCA url) ∧
    (ca cfg = None → ∃ url, ca_directory cfg = Some url ∧ kw = KwDirectoryUrl url) ∧
    get_crt c n (account_key cfg) csr fs (acme_dir cfg) kw = inr cert ∧
    req_method req = (if link is None then POST else PUT) ∧
    req_data req = Some ([("key", private_key); ("cert", cert)]
                         ++ if link is None then [("name", name)] else []) ∧
    (∀ l, link = Some l → req_url req = l).
Proof.
  unfold make_cert. intros H. cbv zeta.
  repeat first
    [ match goal with
      | H : acme_tiny_get_crt c _ _ _ _ _ = _ |- _ =>
          rewrite acme_tiny_get_crt_run in H; injection H as ???
      | H : rancher_save_cert c _ _ _ _ _ = _ |- _ =>
          apply rancher_save_cert_ok_inv in H as (? & ? & ? & ? & ?)
      | H : make_cert_csr c _ _ _ _ = _ |- _ =>
          apply make_cert_csr_inv in H as (? & ? & _)
      end
    | inv_step c ].
  all: cbn [tick files] in *.
  all: do 7 eexists; split_and!;
         [simpl; reflexivity|eassumption|eassumption| | |eassumption
         |eassumption|eassumption|eassumption].
  all: try (intros; congruence).
  all: intros _; by eexists.
Qed.

Lemma filter_existsb_false {A} (f : A → bool) (l : list A) :
  existsb f l = false → List.filter f l = [].
Proof.
  induction l as [|x l IH]; [done|]. simpl.
  destruct (f x); [done|]. exact IH.
Qed.

Lemma existsb_is_save (ev : list event) :
  existsb is_http ev = false → existsb is_save ev = false.
Proof.
  induction ev as [|e ev IH]; [done|]. simpl.
  intros [He Hev]%orb_false_elim. rewrite (IH Hev), orb_false_r.
  by destruct e.
Qed.

(** A renewal that succeeds signs once and writes once to the store. *)
Lemma make_cert_ok_counts cfg name domains link s s' ev :
  make_cert c cfg name domains link s = (inr tt, s', ev) →
  length (List.filter is_acme ev) = 1 ∧ length (List.filter is_save ev) = 1.
Proof.
  intros (ev_csr & kw & req & pk & cert & n & fs & -> & Hhttp & Hacme & _ & _
          & _ & Hmethod & _)%make_cert_ok_inv.
  rewrite !List.filter_app, !length_app.
  rewrite (filter_existsb_false _ _ Hacme).
  rewrite (filter_existsb_false _ _ (existsb_is_save _ Hhttp)).
  simpl. rewrite Hmethod. by destruct link.
Qed.

Lemma for_each_make_cert_counts cfg (q : list work_item) s s' ev :
  for_each q (λ '(_, name, domains, link), make_cert c cfg name domains link) s
  = (inr tt, s', ev) →
  length (List.filter is_acme ev) = length q ∧
  length (List.filter is_save ev) = length q.
Proof.
  revert s ev. induction q as [|[[[u name] domains] link] q IH]; intros s ev.
  - by intros [= <- <-].
  - cbn [for_each].
    intros [(e & _ & [=])|([] & s1 & ev1 & ev2 & H1 & H2 & ->)]%bind_inv.
    apply make_cert_ok_counts in H1 as [Ha Hs]. apply IH in H2 as [Ha' Hs'].
    rewrite !List.filter_app, !length_app. simpl. lia.
Qed.

(** Whatever its outcome, [check_certs_queue] changes no file and only
    logs and reads from the store. *)
Lemma check_certs_queue_events config s r s' ev :
  check_certs_queue c config s = (r, s', ev) →
  files s' = files s ∧ Forall (λ e, is_log e || is_get e = true) ev.
Proof.
  destruct (rancher_get_certs c (State (files s) (S (tick s))))
    as [[[e|observed] s1] ev_get] eqn:Hget.
  - unfold check_certs_queue, logger_info.
    rewrite (bind_ok _ _ _ _ _ _ (datetime_now_run c s)), bind_emit,
      (bind_err _ _ _ _ _ _ Hget).
    apply rancher_get_certs_inv in Hget as [Hfiles Hev].
    intros [= <- <- <-]. split; [done|]. constructor; [done|].
    eapply Forall_impl; [exact Hev|]. intros e' ->. apply orb_true_r.
  - rewrite (check_certs_queue_run c config s observed s1 ev_get Hget).
    destruct (check_loop _ _ _ _ _ _) as [[r2 s2] ev_loop] eqn:Hloop.
    pose proof (check_loop_frame _ _ _ _ _ _ _ _ _ Hloop) as [-> _].
    apply check_loop_logs in Hloop.
    apply rancher_get_certs_inv in Hget as [Hfiles Hev].
    assert (Forall (λ e, is_log e || is_get e = true)
              (queue_prelude config observed ev_get ++ ev_loop)) as Hall.
    { unfold queue_prelude.
      repeat (apply Forall_app; split); try (by repeat constructor).
      - eapply Forall_impl; [exact Hev|]. intros e ->. apply orb_true_r.
      - by apply Forall_fmap, Forall_true.
      - by apply Forall_fmap, Forall_true.
      - eapply Forall_impl; [exact Hloop|]. by intros e ->. }
    destruct r2; intros [= <- <- <-]; done.
Qed.

Lemma log_or_get_counts (ev : list event) :
  Forall (λ e, is_log e || is_get e = true) ev →
  List.filter is_acme ev = [] ∧ List.filter is_save ev = [] ∧
  existsb is_monitoring ev = false.
Proof.
  induction 1 as [|e ev He _ (IH1 & IH2 & IH3)]; [done|]. simpl.
  rewrite IH1, IH2, IH3.
  destruct e as [| r | | | | | | | | | |]; try done.
  simpl in He. unfold is_save. by destruct (req_method r).
Qed.

End Renewal_facts.



(** X10: the number that [check_certs] returns counts the renewals that
    were carried out: a pass that returns [n] has called the signer [n]
    times and has written [n] times to the store, and [n] is at most the
    number of desired certificates. *)
Theorem check_certs_count (c : collab) (config : config) (s s' : state)
    (n : nat) (ev : list event) :
  check_certs c config s = (inr n, s', ev) →
  length (List.filter is_acme ev) = n ∧
  length (List.filter is_save ev) = n ∧
  n ≤ length (certs config).
Proof.
  unfold check_certs.
  intros [(e & _ & [=])|(q & s1 & ev1 & ev' & Hq & H & ->)]%bind_inv.
  apply bind_inv in H as [(e & _ & [=])|([] & s2 & ev2 & ev3 & Hfor & H & ->)].
  injection H as <- <- <-.
  pose proof (check_certs_queue_events c _ _ _ _ _ Hq) as [_ Hev].
  apply log_or_get_counts in Hev as (Ha & Hs & _).
  apply for_each_make_cert_counts in Hfor as [Ha' Hs'].
  apply check_certs_queue_inv in Hq
    as (observed & ev_get & to_do & ev_loop & _ & Hloop & Hsort & _).
  apply list_sort_ok in Hsort as [Hperm _].
  apply check_loop_items in Hloop as (d & -> & Hlen & _).
  rewrite !List.filter_app, !length_app, Ha, Hs. simpl.
  split_and!; [lia..|]. by rewrite Hperm.
Qed.

(** Two absent certificates that are both created. *)
Lemma check_certs_count_witness :
  let cfg := example_config None (Some "https://acme/dir")
               [CertConfig "a" ["a.com"]; CertConfig "b" ["b.com"; "c.com"]] in
  let c := example_collab cfg [] 0 (inr "CERT") in
  (check_certs c cfg example_state).1.1 = inr 2 ∧
  length (List.filter is_save (check_certs c cfg example_state).2) = 2.
Proof.
  intros cfg c.
  destruct (check_certs c cfg example_state) as [[r s'] ev] eqn:Hrun.
  assert (r = inr 2) as -> by (vm_compute in Hrun; congruence).
  split; [reflexivity|].
  apply (check_certs_count c cfg example_state s' 2 ev Hrun).
Defined.

(** ** What a run leaves alone *)

Section Keeps_facts.
Context (c : collab) (P : event → bool).
Hypothesis HP : ∀ e, is_monitoring e = false → P e = true.

Lemma keeps_ret {A} (a : A) : keeps P (ret a).
Proof. intros s r s' ev [= <- <- <-]. done. Qed.

Lemma keeps_raise {A} (e : exn) : keeps P (@raise A e).
Proof. intros s r s' ev [= <- <- <-]. done. Qed.

Lemma keeps_lift {A} (x : exn + A) : keeps P (lift x).
Proof. intros s r s' ev [= <- <- <-]. done. Qed.

Lemma keeps_emit (e : event) : is_monitoring e = false → keeps P (emit e).
Proof.
  intros He s r s' ev [= <- <- <-]. split; [done|]. simpl. by rewrite HP.
Qed.

Lemma keeps_bind {A B} (m : M A) (f : A → M B) :
  keeps P m → (∀ a, keeps P (f a)) → keeps P (bind m f).
Proof.
  intros Hm Hf s r s' ev
    [(e & H & ->)|(a & s1 & ev1 & ev2 & H1 & H2 & ->)]%bind_inv.
  - by apply Hm in H.
  - apply Hm in H1 as [Hfs1 Hev1]. apply Hf in H2 as [Hfs2 Hev2]. split.
    + intros path Hpath. by rewrite Hfs2, Hfs1.
    + by rewrite forallb_app, Hev1, Hev2.
Qed.

Lemma keeps_for_each {A} (l : list A) (body : A → M unit) :
  (∀ x, keeps P (body x)) → keeps P (for_each l body).
Proof.
  intros Hbody. induction l as [|x l IH]; [apply keeps_ret|].
  apply keeps_bind; [apply Hbody|]. intros _. exact IH.
Qed.

Lemma keeps_uuid4 : keeps P (uuid4 c).
Proof. intros s r s' ev. rewrite uuid4_run. by intros [= <- <- <-]. Qed.

Lemma keeps_datetime_now : keeps P (datetime_now c).
Proof. intros s r s' ev. rewrite datetime_now_run. by intros [= <- <- <-]. Qed.

Lemma keeps_os_environ (k : string) : keeps P (os_environ c k).
Proof. by intros s r s' ev [-> ->]%os_environ_inv. Qed.

Lemma keeps_read_file (path : string) : keeps P (read_file path).
Proof.
  intros s r s' ev (-> & -> & _)%read_file_inv. split; [done|].
  simpl. by rewrite HP.
Qed.

Lemma keeps_write_file (u content : string) :
  keeps P (write_file ("/tmp/" +:+ u) content).
Proof.
  intros s r s' ev. rewrite write_file_run. intros [= <- <- <-]. split.
  - intros path Hpath. cbn [files]. apply lookup_insert_ne.
    intros <-. by apply (Hpath u).
  - simpl. by rewrite HP.
Qed.

Lemma keeps_os_remove (u : string) : keeps P (os_remove ("/tmp/" +:+ u)).
Proof.
  intros s r s' ev (-> & [[_ Hfs]|[_ ->]])%os_remove_inv;
    (split; [|simpl; by rewrite HP]); [|done].
  intros path Hpath. rewrite Hfs. apply lookup_delete_ne.
  intros <-. by apply (Hpath u).
Qed.

Lemma keeps_requests (req : request) : keeps P (requests c req).
Proof.
  intros s r s' ev [Hfs ->]%requests_inv. split; [by rewrite Hfs|].
  simpl. by rewrite HP.
Qed.

Lemma keeps_acme_tiny_get_crt account_key csr_file acme_dir kw :
  keeps P (acme_tiny_get_crt c account_key csr_file acme_dir kw).
Proof.
  intros s r s' ev [-> Hfs]%acme_tiny_get_crt_inv. split; [by rewrite Hfs|].
  simpl. by rewrite HP.
Qed.

Lemma keeps_openssl (args : list string) :
  (∀ path, out_path ("openssl" :: args) = Some path →
           ∃ u, path = "/tmp/" +:+ u) →
  keeps P (openssl c args).
Proof.
  intros Hout s r s' ev (-> & [Hfs|(path & content & Hpath & Hfs)])%openssl_inv;
    (split; [|simpl; by rewrite HP]); intros p Hp; rewrite Hfs; [done|].
  destruct (Hout path Hpath) as [u ->]. apply lookup_insert_ne.
  intros <-. by apply (Hp u).
Qed.

Ltac keeps_step :=
  lazymatch goal with
  | |- keeps _ (bind _ _) => apply keeps_bind; [|intros ?]
  | |- keeps _ (ret _) => apply keeps_ret
  | |- keeps _ (raise _) => apply keeps_raise
  | |- keeps _ (lift _) => apply keeps_lift
  | |- keeps _ (logger_info _) => by apply keeps_emit
  | |- keeps _ (logger_debug _) => by apply keeps_emit
  | |- keeps _ (logger_warning _) => by apply keeps_emit
  | |- keeps _ (uuid4 _) => apply keeps_uuid4
  | |- keeps _ (datetime_now _) => apply keeps_datetime_now
  | |- keeps _ (os_environ _ _) => apply keeps_os_environ
  | |- keeps _ (read_file _) => apply keeps_read_file
  | |- keeps _ (write_file _ _) => apply keeps_write_file
  | |- keeps _ (os_remove _) => apply keeps_os_remove
  | |- keeps _ (requests _ _) => apply keeps_requests
  | |- keeps _ (acme_tiny_get_crt _ _ _ _ _) => apply keeps_acme_tiny_get_crt
  | |- keeps _ (openssl _ _) =>
      apply keeps_openssl; intros ?;
      rewrite ?out_path_genrsa, ?out_path_req; intros [= <-]; by eexists
  | |- keeps _ (for_each _ _) => apply keeps_for_each; intros ?
  | |- keeps _ (list_index _ _) => unfold list_index
  | |- keeps _ (if ?b then _ else _) => destruct b
  | |- keeps _ (match ?x with _ => _ end) => destruct x
  end.

Lemma keeps_rancher_get_certs : keeps P (rancher_get_certs c).
Proof. unfold rancher_get_certs. repeat keeps_step. Qed.

Lemma keeps_rancher_save_cert name private_key cert link :
  keeps P (rancher_save_cert c name private_key cert link).
Proof. unfold rancher_save_cert. cbv zeta. repeat keeps_step. Qed.

Lemma keeps_make_cert_csr domains (key csr : string) :
  keeps P (make_cert_csr c domains ("/tmp/" +:+ key) ("/tmp/" +:+ csr)).
Proof. unfold make_cert_csr. cbv zeta. repeat keeps_step. Qed.

Lemma keeps_make_cert cfg name domains link :
  keeps P (make_cert c cfg name domains link).
Proof.
  unfold make_cert. cbv zeta.
  repeat first [apply keeps_make_cert_csr | apply keeps_rancher_save_cert
               | keeps_step].
Qed.

Lemma keeps_load_config : keeps P (load_config c).
Proof. unfold load_config. repeat keeps_step. Qed.

Lemma keeps_check_certs config : keeps P (check_certs c config).
Proof.
  unfold check_certs. apply keeps_bind.
  - intros s r s' ev [Hfs Hev]%check_certs_queue_events. split.
    + intros path _. by rewrite Hfs.
    + apply forallb_forall. intros e He%list_elem_of_In. apply HP.
      rewrite Forall_forall in Hev. specialize (Hev e He). by destruct e.
  - intros q. apply keeps_bind; [|intros _; apply keeps_ret].
    apply keeps_for_each. intros [[[u name] domains] link].
    apply keeps_make_cert.
Qed.

Lemma keeps_single_run : keeps P (single_run c).
Proof.
  unfold single_run.
  repeat first [apply keeps_load_config | apply keeps_check_certs | keeps_step].
Qed.

End Keeps_facts.

Lemma daemon_iteration_keeps (c : collab) :
  keeps (λ _, true) (daemon_iteration c).
Proof.
  intros s r s' ev. rewrite daemon_iteration_run. intros [= <- <- <-].
  split; [|by apply forallb_forall].
  destruct (single_run c s) as [[r s1] ev1] eqn:Hrun.
  by apply (keeps_single_run c (λ _, true)) in Hrun as [? _].
Qed.

Lemma daemon_loop_keeps (c : collab) (n : nat) :
  keeps (λ _, true) (daemon_loop c n).
Proof.
  induction n as [|n IH]; [apply keeps_ret|].
  apply keeps_bind; [apply daemon_iteration_keeps|by intros _].
Qed.

(** The sleeps of [n] iterations. *)
Lemma daemon_loop_run (c : collab) (n : nat) (s : state) :
  ∃ s' ev, daemon_loop c n s = (inr tt, s', ev) ∧
           length (List.filter is_sleep ev) = n ∧
           existsb is_init ev = false.
Proof.
  revert s. induction n as [|n IH]; intros s; [by eexists _, _|].
  cbn [daemon_loop].
  rewrite (bind_ok _ _ _ _ _ _ (daemon_iteration_run c s)).
  destruct (IH (single_run c s).1.2) as (s' & ev & -> & Hlen & Hinit).
  eexists _, _. split; [reflexivity|].
  destruct (single_run c s) as [[r s1] ev1] eqn:Hrun. cbn [fst snd].
  apply (keeps_single_run c (λ e, negb (is_monitoring e))) in Hrun as [_ Hev];
    [|by intros e ->].
  rewrite !List.filter_app, !length_app, !existsb_app, Hlen, Hinit.
  assert (List.filter is_sleep ev1 = [] ∧ existsb is_init ev1 = false)
    as [-> ->].
  { clear -Hev. induction ev1 as [|e ev1 IH]; [done|].
    simpl in Hev. apply andb_prop in Hev as [He Hev]. simpl.
    destruct (IH Hev) as [-> ->]. by destruct e. }
  destruct r; simpl; (split; [lia|done]).
Qed.

(** X11: the program changes no file outside [/tmp], in either mode and
    whatever the outside world answers, as long as a process writes at most
    the file it is given with [-out]: the configuration file and the
    template of [openssl] are read and never written. *)
Theorem main_changes_tmp_only (c : collab) (argv : list string) (n : nat)
    (s : state) (r : exn + unit) (s' : state) (ev : list event) :
  main c argv n s = (r, s', ev) →
  ∀ path, outside_tmp path → files s' !! path = files s !! path.
Proof.
  intros Hrun.
  assert (keeps (λ _, true) (main c argv n)) as Hkeeps.
  { unfold main. case_bool_decide.
    - unfold daemon. apply keeps_bind; [by apply keeps_lift|intros port].
      apply keeps_bind; [|intros _; apply daemon_loop_keeps].
      intros s0 r0 s0' ev0 [= <- <- <-]. done.
    - apply keeps_bind; [by apply keeps_single_run|intros _; apply keeps_ret]. }
  by apply Hkeeps in Hrun as [? _].
Qed.

(** Two iterations of the daemon that renew a certificate of two domains. *)
Lemma main_changes_tmp_only_witness :
  let cfg := example_config None (Some "https://acme/dir")
               [CertConfig "site" ["a.com"; "b.com"]] in
  let c := example_collab cfg [] 0 (inr "CERT") in
  let run := main c ["main.py"; "--daemon"] 2 example_state in
  files run.1.2 !! "config/config.yml" = Some "certs: ..." ∧
  files run.1.2 !! "/etc/ssl/openssl.cnf" = Some "[ req ]".
Proof.
  intros cfg c run.
  destruct run as [[r s'] ev] eqn:Hrun. cbn [fst snd].
  rewrite !(main_changes_tmp_only c _ 2 example_state r s' ev Hrun);
    [split; reflexivity|intros u; discriminate..].
Defined.

(** X12: without [--daemon] among the arguments the program runs one pass
    and ends as the pass ends, with its error if it raised one; it reports
    nothing to the monitoring, prints no traceback of its own and does not
    sleep. *)
Theorem main_single_mode (c : collab) (argv : list string) (n : nat)
    (s : state) :
  "--daemon" ∉ argv →
  main c argv n s
  = (match (single_run c s).1.1 with inl e => inl e | inr _ => inr tt end,
     (single_run c s).1.2, (single_run c s).2) ∧
  existsb is_monitoring (single_run c s).2 = false.
Proof.
  intros Hargv. split.
  - unfold main. rewrite bool_decide_eq_false_2 by done.
    unfold bind, ret. destruct (single_run c s) as [[[e|nb] s1] ev]; [done|].
    simpl. by rewrite app_nil_r.
  - destruct (single_run c s) as [[r s1] ev] eqn:Hrun. cbn [snd].
    apply (keeps_single_run c (λ e, negb (is_monitoring e))) in Hrun as [_ Hev];
      [|by intros e ->].
    clear -Hev. induction ev as [|e ev IH]; [done|].
    simpl in Hev. apply andb_prop in Hev as [He Hev]. simpl.
    rewrite (IH Hev). by destruct (is_monitoring e).
Qed.

(** A single pass against a store that is down. *)
Lemma main_single_mode_witness :
  let cfg := example_config None (Some "https://acme/dir") [] in
  let down := with_http (example_collab cfg [] 0 (inr "CERT"))
                (λ _ _, inr (Response 503 "Service Unavailable" (inr []))) in
  (main down ["main.py"] 0 example_state).1.1
  = inl (Exception "Rancher returned non-200 code: 503 - Service Unavailable").
Proof.
  intros cfg down.
  destruct (main_single_mode down ["main.py"] 0 example_state) as [-> _].
  - intros Hin. apply list_elem_of_In in Hin. simpl in Hin.
    destruct Hin as [Hin|[]]. discriminate Hin.
  - vm_compute. reflexivity.
Defined.

(** X13: with [--daemon] the program first reads the address of the
    monitoring agent, [127.0.0.1] and [8125] unless the environment sets
    [DOGSTATSD_HOST] and [DOGSTATSD_PORT]. A port that is not a number
    ends the program there, before any pass, with the error of the
    conversion. Otherwise the agent is initialised once and the loop runs:
    [n] iterations end normally with [n] sleeps, whatever the passes did. *)
Theorem main_daemon_mode (c : collab) (argv : list string) (n : nat)
    (s : state) :
  "--daemon" ∈ argv →
  let host := default "127.0.0.1" (environ c !! "DOGSTATSD_HOST") in
  let port := default "8125" (environ c !! "DOGSTATSD_PORT") in
  match int_of_str c port with
  | inl e => main c argv n s = (inl e, s, [])
  | inr p =>
      ∃ s' ev, main c argv n s = (inr tt, s', DatadogInit host p :: ev) ∧
               length (List.filter is_sleep ev) = n ∧
               existsb is_init ev = false
  end.
Proof.
  intros Hargv host port. unfold main. rewrite bool_decide_eq_true_2 by done.
  unfold daemon.
  change (os_getenv c "DOGSTATSD_PORT" "8125") with port.
  change (os_getenv c "DOGSTATSD_HOST" "127.0.0.1") with host.
  destruct (int_of_str c port) as [e|p]; [done|].
  destruct (daemon_loop_run c n s) as (s' & ev & Hrun & Hlen & Hinit).
  exists s', ev. split; [|done]. unfold bind, lift, emit. by rewrite Hrun.
Qed.

(** The daemon of the example world, and one whose port is not a number. *)
Lemma main_daemon_mode_witness :
  let cfg := example_config None (Some "https://acme/dir") [] in
  let c := example_collab cfg [] 0 (inr "CERT") in
  let bad := with_environ c {[ "DOGSTATSD_PORT" := "statsd" ]} in
  (∃ s' ev, main c ["main.py"; "--daemon"] 3 example_state
            = (inr tt, s', DatadogInit "127.0.0.1" 8125 :: ev) ∧
            length (List.filter is_sleep ev) = 3) ∧
  main bad ["main.py"; "--daemon"] 3 example_state
  = (inl (ValueError "invalid literal for int() with base 10: 'statsd'"),
     example_state, []).
Proof.
  intros cfg c bad. split.
  - assert ("--daemon" ∈ ["main.py"; "--daemon"]) as Hin
      by (right; left).
    destruct (main_daemon_mode c _ 3 example_state Hin)
      as (s' & ev & Hrun & Hlen & _).
    exists s', ev. split; [exact Hrun|exact Hlen].
  - apply (main_daemon_mode bad ["main.py"; "--daemon"] 3 example_state).
    right; left.
Defined.

(** ** A store that needs nothing *)

Lemma check_loop_healthy (c : collab) now by_name to_do l s :
  Forall (λ cc, ∃ rc exp,
            by_name !! cc_name cc = Some rc ∧
            contains_sublist (subjectAlternativeNames rc) (cc_domains cc) = true ∧
            strptime c (expiresAt rc) = inr exp ∧
            (30 ≤ timedelta_days (exp - now))%Z) l →
  ∃ ev, check_loop c now by_name to_do l s = (inr to_do, s, ev).
Proof.
  induction 1 as [|cc l (rc & exp & Hrc & Hsub & Hexp & Hdays) _ [ev IH]].
  - by eexists.
  - cbn [check_loop].
    assert (check_cert c now by_name to_do cc s
            = (inr to_do, s,
               [Log INFO ("- Cert " +:+ cc_name cc +:+ " expires in "
                          +:+ str_int (timedelta_days (exp - now))
                          +:+ " days")])) as Hcc.
    { unfold check_cert. rewrite Hrc, Hsub. run_M. rewrite Hexp.
      cbv zeta. apply Z.ltb_ge in Hdays. by rewrite Hdays. }
    rewrite (bind_ok _ _ _ _ _ _ Hcc), IH. by eexists.
Qed.

(** X14: when every desired certificate is matched by an observed one that
    covers its domains and has 30 whole days or more left, the pass
    renews nothing: [check_certs] returns 0, changes no file, and its
    events are log lines and the request that read the store. *)
Theorem check_certs_steady_state (c : collab) (config : config) (s : state)
    (observed : list rancher_cert) (s1 : state) (ev_get : list event) :
  rancher_get_certs c (State (files s) (S (tick s)))
  = (inr observed, s1, ev_get) →
  Forall (λ cc, ∃ rc exp,
            index_certs observed !! cc_name cc = Some rc ∧
            contains_sublist (subjectAlternativeNames rc) (cc_domains cc) = true ∧
            strptime c (expiresAt rc) = inr exp ∧
            (30 ≤ timedelta_days (exp - clock c (tick s)))%Z)
         (certs config) →
  ∃ ev, check_certs c config s = (inr 0, s1, ev) ∧
        files s1 = files s ∧
        Forall (λ e, is_log e || is_get e = true) ev.
Proof.
  intros Hget Hall.
  destruct (check_loop_healthy c _ _ [] _ s1 Hall) as [ev_loop Hloop].
  assert (check_certs_queue c config s
          = (inr [], s1, queue_prelude config observed ev_get ++ ev_loop))
    as Hq.
  { by rewrite (check_certs_queue_run c config s observed s1 ev_get Hget),
      Hloop. }
  pose proof (check_certs_queue_events c _ _ _ _ _ Hq) as [Hfs Hev].
  eexists. split_and!; [|exact Hfs|exact Hev].
  unfold check_certs. rewrite (bind_ok _ _ _ _ _ _ Hq). simpl.
  by rewrite app_nil_r.
Qed.

(** A certificate with 99 whole days left. *)
Lemma check_certs_steady_state_witness :
  let cfg := example_config None (Some "https://acme/dir")
               [CertConfig "site" ["a.com"]] in
  let rc := RancherCert "site" ["a.com"; "b.com"]
              "Sat Apr 11 00:00:00 UTC 1970" "link/1" in
  let c := example_collab cfg [rc] 0 (inr "CERT") in
  (check_certs c cfg example_state).1.1 = inr 0.
Proof.
  intros cfg rc c.
  destruct (check_certs_steady_state c cfg example_state [rc]
              (State (files example_state) 2)
              [HttpRequest (Request GET "http://rancher/v1/certificates" None []
                                    ("access", "secret"))])
    as (ev & -> & _).
  - vm_compute. reflexivity.
  - constructor; [|constructor].
    exists rc, (100 * 86400000000)%Z. split_and!.
    + vm_compute. reflexivity.
    + vm_compute. reflexivity.
    + vm_compute. reflexivity.
    + vm_compute. discriminate.
  - reflexivity.
Defined.

(** ** A configuration without an authority *)




(** ** The two streams of the log *)

Lemma streams_of_setup_logging (c : collab) (lvl : level) :
  streams_of (setup_logging c) lvl
  = match lvl with
    | WARNING => [Stderr]
    | INFO => [Stdout]
    | DEBUG => if bool_decide (is_Some (environ c !! "LOG_DEBUG"))
               then [Stdout] else []
    end.
Proof.
  unfold streams_of, setup_logging. cbn [l_level l_handlers].
  destruct (bool_decide (is_Some (environ c !! "LOG_DEBUG"))), lvl;
    reflexivity.
Qed.

(** X16: as [setup_logging] configures the logger, a warning is written to
    the standard error and nowhere else; a line of level [INFO] is written
    to the standard output and nowhere else; a line of level [DEBUG] is
    written, to the standard output, only when [LOG_DEBUG] is in the
    environment, whatever its value. No line is written twice. *)
Theorem setup_logging_routing (c : collab) (ev : list event) (msg : string) :
  let lg := setup_logging c in
  ((Stderr, msg) ∈ written lg ev ↔ Log WARNING msg ∈ ev) ∧
  ((Stdout, msg) ∈ written lg ev ↔
   Log INFO msg ∈ ev ∨
   (is_Some (environ c !! "LOG_DEBUG") ∧ Log DEBUG msg ∈ ev)) ∧
  length (written lg ev) ≤ length ev.
Proof.
  cbv zeta. induction ev as [|e ev (IH1 & IH2 & IH3)].
  - simpl. rewrite !elem_of_nil. split_and!; [naive_solver..|lia].
  - unfold written in *. cbn [flat_map]. rewrite length_app.
    destruct e as [lvl m| | | | | | | | | | |];
      [rewrite streams_of_setup_logging;
       destruct lvl; [case_bool_decide as Hdebug| |]|..];
      cbn [fmap list_fmap app length].
    all: split; [|split; [|lia]].
    all: rewrite ?elem_of_cons; first [rewrite IH1|rewrite IH2]; naive_solver.
Qed.

(** A run that logs at the three levels, without [LOG_DEBUG]. *)
Lemma setup_logging_routing_witness :
  let c := example_collab (example_config None None []) [] 0 (inr "CERT") in
  written (setup_logging c)
          [Log DEBUG "d"; Log INFO "i"; Sleep 1; Log WARNING "w"]
  = [(Stdout, "i"); (Stderr, "w")] ∧
  (Stderr, "w") ∈ written (setup_logging c)
                          [Log DEBUG "d"; Log INFO "i"; Sleep 1; Log WARNING "w"].
Proof.
  intros c. split; [vm_compute; reflexivity|].
  apply (setup_logging_routing c _ "w").
  do 3 right. left.
Defined.

(** ** The configuration of a pass *)

(** X17: a pass reads the configuration before anything else it does: when
    [config/config.yml] is missing, or is not a document the parser
    accepts, the pass ends with that error after its first log line and the
    read, and the store is not contacted. *)
Theorem single_run_config_failure (c : collab) (s : state) :
  let started :=
    [Log INFO ("*** Rancher Auto Certs started "
               +:+ strftime c (clock c (tick s)) +:+ " ***");
     FileRead "config/config.yml"] in
  (files s !! "config/config.yml" = None →
   single_run c s
   = (inl (FileNotFoundError "config/config.yml"),
      State (files s) (S (tick s)), started)) ∧
  (∀ doc e, files s !! "config/config.yml" = Some doc →
     yaml_safe_load c doc = inl e →
     single_run c s = (inl e, State (files s) (S (tick s)), started)).
Proof.
  cbv zeta. split.
  - intros Hfile. unfold single_run, datetime_now, load_config, read_file.
    run_M. by rewrite Hfile.
  - intros doc e Hfile Hyaml.
    unfold single_run, datetime_now, load_config, read_file.
    run_M. by rewrite Hfile, Hyaml.
Qed.

(** A file system without the configuration file. *)
Lemma single_run_config_failure_witness :
  let c := example_collab (example_config None None []) [] 0 (inr "CERT") in
  single_run c (State ∅ 0)
  = (inl (FileNotFoundError "config/config.yml"), State ∅ 1,
     [Log INFO "*** Rancher Auto Certs started 1970-01-01 12:00 ***";
      FileRead "config/config.yml"]).
Proof.
  intros c.
  destruct (single_run_config_failure c (State ∅ 0)) as [H _].
  apply H. reflexivity.
Defined.

(** Trimming twice is trimming once. *)

Lemma string_app_cons (a : ascii) (s t : string) :
  String a s +:+ t = String a (s +:+ t).
Proof. reflexivity. Qed.

Lemma rev_app_rev_app (s t u : string) :
  String.rev_app (String.rev_app s t) u = String.rev_app t (s +:+ u).
Proof.
  revert t u. induction s as [|a s IH]; intros t u; [done|].
  rewrite string_app_cons. cbn [String.rev_app]. by rewrite IH.
Qed.

Lemma string_app_nil_r (s : string) : s +:+ "" = s.
Proof.
  induction s as [|a s IH]; [done|]. by rewrite string_app_cons, IH.
Qed.

Lemma string_rev_involutive (s : string) : String.rev (String.rev s) = s.
Proof.
  unfold String.rev. rewrite rev_app_rev_app. cbn [String.rev_app].
  apply string_app_nil_r.
Qed.

Lemma rev_app_app (y w u : string) :
  String.rev_app (y +:+ w) u = String.rev_app w (String.rev_app y u).
Proof.
  revert u. induction y as [|b y IH]; intros u; [done|].
  rewrite string_app_cons. cbn [String.rev_app]. apply IH.
Qed.

Lemma string_app_assoc (x y z : string) : (x +:+ y) +:+ z = x +:+ (y +:+ z).
Proof.
  induction x as [|b x IH]; [done|]. by rewrite !string_app_cons, IH.
Qed.

Lemma rev_app_spec (s t : string) :
  String.rev_app s t = String.rev s +:+ t.
Proof.
  unfold String.rev. revert t. induction s as [|a s IH]; intros t; [done|].
  cbn [String.rev_app]. rewrite IH, (IH (String a "")).
  by rewrite string_app_assoc.
Qed.

Lemma lstrip_idemp (s : string) : lstrip (lstrip s) = lstrip s.
Proof.
  induction s as [|a s IH]; [done|]. cbn [lstrip].
  destruct (is_py_space a) eqn:Ha; [done|]. cbn [lstrip]. by rewrite Ha.
Qed.

Lemma lstrip_app_nonspace (x : string) (a : ascii) (u : string) :
  is_py_space a = false →
  lstrip (x +:+ String a u) = lstrip x +:+ String a u.
Proof.
  intros Ha. induction x as [|b x IH].
  - change ("" +:+ String a u) with (String a u). cbn [lstrip]. by rewrite Ha.
  - rewrite string_app_cons. cbn [lstrip].
    destruct (is_py_space b); [exact IH|]. by rewrite string_app_cons.
Qed.

Lemma rstrip_cons_nonspace (a : ascii) (t : string) :
  is_py_space a = false → rstrip (String a t) = String a (rstrip t).
Proof.
  intros Ha. unfold rstrip.
  assert (String.rev (String a t) = String.rev t +:+ String a "") as ->.
  { unfold String.rev at 1. cbn [String.rev_app]. apply rev_app_spec. }
  rewrite (lstrip_app_nonspace _ _ _ Ha).
  unfold String.rev at 1. by rewrite rev_app_app.
Qed.

Lemma rstrip_idemp (s : string) : rstrip (rstrip s) = rstrip s.
Proof. unfold rstrip. by rewrite string_rev_involutive, lstrip_idemp. Qed.

Lemma strip_idemp (s : string) : strip (strip s) = strip s.
Proof.
  unfold strip.
  assert (lstrip (rstrip (lstrip s)) = rstrip (lstrip s)) as ->.
  { assert (lstrip s = "" ∨ ∃ a t, lstrip s = String a t ∧ is_py_space a = false)
      as [->|(a & t & -> & Ha)].
    { induction s as [|a s IH]; [by left|]. cbn [lstrip].
      destruct (is_py_space a) eqn:Ha; [done|]. right. by exists a, s. }
    - done.
    - rewrite (rstrip_cons_nonspace _ _ Ha). cbn [lstrip]. by rewrite Ha. }
  apply rstrip_idemp.
Qed.

(** X18: the configuration that [load_config] returns is trimmed:
    trimming the names and the domains once more changes nothing, and
    the certificates and their domains are as many as in the document and
    in its order. Loading changes no file, and besides the read of the
    file its events are warnings. *)
Theorem load_config_normalised (c : collab) (s : state) (cfg : config)
    (s' : state) (ev : list event) :
  load_config c s = (inr cfg, s', ev) →
  s' = s ∧
  strip_cert <$> certs cfg = certs cfg ∧
  (∃ doc cfg0, files s !! "config/config.yml" = Some doc ∧
               yaml_safe_load c doc = inr cfg0 ∧
               certs cfg = strip_cert <$> certs cfg0) ∧
  ∃ warnings, ev = FileRead "config/config.yml" :: warnings ∧
              Forall (λ e, ∃ msg, e = Log WARNING msg) warnings.
Proof.
  unfold load_config. intros H.
  apply bind_inv in H as [(e & _ & [=])|(doc & s1 & ev1 & ev2 & Hread & H & ->)].
  apply read_file_inv in Hread as (-> & -> & [(doc' & [= <-] & Hfile)|[[=] _]]).
  apply bind_inv in H as [(e & _ & [=])|(cfg0 & s1 & ev1 & ev3 & Hyaml & H & ->)].
  unfold lift in Hyaml. injection Hyaml as Hyaml <- <-.
  destruct (_ && _); [done|].
  assert (strip_cert <$> (strip_cert <$> certs cfg0) = strip_cert <$> certs cfg0)
    as Hnorm.
  { rewrite <-list_fmap_compose. apply list_fmap_ext. intros _ [name doms] _.
    unfold strip_cert, compose. simpl. f_equal; [apply strip_idemp|].
    rewrite <-list_fmap_compose. apply list_fmap_ext. intros _ d _.
    apply strip_idemp. }
  run_M_in H.
  destruct (bool_decide (is_Some (ca cfg0))), (bool_decide (is_Some (chain cfg0)));
    injection H as <- <- <-; cbn [certs].
  all: split_and!; [done|exact Hnorm|by exists doc, cfg0|].
  all: eexists; split; [reflexivity|]; repeat constructor; by eexists.
Qed.

(** A document whose names and domains carry blanks. *)
Lemma load_config_normalised_witness :
  let doc := example_config (Some "https://acme/ca") None
               [CertConfig "  site " [" a.com"; "b.com  "]] in
  let c := example_collab doc [] 0 (inr "CERT") in
  (load_config c example_state).1.1
  = inr (example_config (Some "https://acme/ca") None
           [CertConfig "site" ["a.com"; "b.com"]]) ∧
  (load_config c example_state).1.2 = example_state.
Proof.
  intros doc c.
  destruct (load_config c example_state) as [[r s'] ev] eqn:Hrun.
  assert (r = inr (example_config (Some "https://acme/ca") None
                     [CertConfig "site" ["a.com"; "b.com"]])) as ->.
  { pose proof Hrun as Hv. vm_compute in Hv. injection Hv as <- _ _.
    vm_compute. reflexivity. }
  split; [reflexivity|].
  apply (load_config_normalised c example_state _ s' ev Hrun).
Defined.
